(** * Tracking-result plotting ([utils_cv/tracking/plot.py])

    A shallow embedding of the four functions of [plot.py]
    ([plot_results], [_write_video], [_draw_boxes],
    [_compute_color_for_all_labels]) and the properties the
    specification states about them.

    Conventions.
    - Python [int] is [Z] (unbounded, so no wrap-around is written).
    - A finite Python [float] is represented by the rational it denotes
      ([Q]); box coordinates are [pyfloat], which adds the infinities and
      NaN.  [int(x)] truncates toward zero and [round(x)] rounds half to
      even, as Python does, and [round] raises on an infinity and on
      NaN.
    - A [dict] that is only ever indexed is a [gmap]; a [dict] that is
      iterated is an insertion-ordered association list ([odict]).
    - Exceptions are the [Raise] case of [result].
    - OpenCV is outside the repository: its drawing primitives and the
      image type are the interface [Canvas] (a primitive may raise), what
      it decides on its own is the interface [Backend], and the
      capture/writer objects are small explicit state records. *)

From Stdlib Require Import ZArith QArith Lia Ascii.
From stdpp Require Import base option list gmap strings pretty sorting.

Local Open Scope Z_scope.

(** ** Exceptions *)

Inductive exn :=
| KeyError (k : Z)   (* [d[k]] on a dict without key [k] *)
| ValueError         (* [round] of NaN *)
| OverflowError      (* [round] of an infinity *)
| Cv2Error.          (* an exception raised inside an OpenCV call *)

Inductive result (A : Type) :=
| Ok (a : A)
| Raise (e : exn).
Arguments Ok {A} a.
Arguments Raise {A} e.

Definition bind {A B} (r : result A) (k : A → result B) : result B :=
  match r with
  | Ok a => k a
  | Raise e => Raise e
  end.

Notation "x ←! r ;; k" := (bind r (λ x, k))
  (at level 100, r at next level, right associativity, only parsing).

(** ** Python dictionaries *)

(** [dict(pairs)] when the result is only indexed afterwards: pairs are
    inserted left to right, so a later pair overwrites an earlier one with
    the same key. *)
Definition dict_of_pairs {V} (l : list (Z * V)) : gmap Z V :=
  foldl (λ m kv, <[kv.1 := kv.2]> m) ∅ l.

(** [d[k]] *)
Definition dict_get {V} (d : gmap Z V) (k : Z) : result V :=
  match d !! k with
  | Some v => Ok v
  | None => Raise (KeyError k)
  end.

Module OrderedDict.
(** A dict whose iteration order is observed: items in order of first
    insertion of their key. *)
Abbreviation odict V := (list (Z * V)) (only parsing).

(** [d[k] = v]: overwrite in place when [k] is present, append else. *)
Fixpoint set {V} (k : Z) (v : V) (d : odict V) : odict V :=
  match d with
  | [] => [(k, v)]
  | (k', v') :: d' =>
      if decide (k' = k) then (k', v) :: d' else (k', v') :: set k v d'
  end.

(** [dict(pairs)] / [OrderedDict(pairs)] *)
Definition of_pairs {V} (l : list (Z * V)) : odict V :=
  foldl (λ d kv, set kv.1 kv.2 d) [] l.

Fixpoint find {V} (k : Z) (d : odict V) : option V :=
  match d with
  | [] => None
  | (k', v) :: d' => if decide (k' = k) then Some v else find k d'
  end.

(** [d[k]] *)
Definition get {V} (d : odict V) (k : Z) : result V :=
  match find k d with
  | Some v => Ok v
  | None => Raise (KeyError k)
  end.

(** [d.items()], [d.values()] *)
Definition items {V} (d : odict V) : list (Z * V) := d.
Definition values {V} (d : odict V) : list V := d.*2.
End OrderedDict.
Import OrderedDict.

(** ** [_compute_color_for_all_labels] *)

Definition color : Type := Z * Z * Z.

Definition palette : Z * Z * Z := (2 ^ 11 - 1, 2 ^ 15 - 1, 2 ^ 20 - 1).

(** The body of the [for i in id_list2] loop:
    [[int((p * ((i + 1) ** 5 - i + 1)) % 255) for p in palette]]. *)
Definition color_at (i : Z) : color :=
  let ch (p : Z) := (p * ((i + 1) ^ 5 - i + 1)) `mod` 255 in
  let '(p0, p1, p2) := palette in
  (ch p0, ch p1, ch p2).

Definition _compute_color_for_all_labels (id_list : list Z) : gmap Z color :=
  let id_list2 := seqZ 0 (Z.of_nat (length id_list)) in
  let color_list := color_at <$> id_list2 in
  dict_of_pairs (zip id_list color_list).

(** The pairs zipped at line 135: position [i] holds the [i]-th
    identifier and the colour computed for index [i]. *)
Definition color_pairs (id_list : list Z) : list (Z * color) :=
  zip id_list (color_at <$> seqZ 0 (Z.of_nat (length id_list))).

(** ** Python numeric conversions on floats *)

(** [int(x)]: truncation toward zero. *)
Definition py_int (x : Q) : Z := Z.quot (Qnum x) (Zpos (Qden x)).

(** The nearest integer, ties to the even one. *)
Definition round_half_even (x : Q) : Z :=
  let d := Zpos (Qden x) in
  let f := Qnum x `div` d in
  match 2 * (Qnum x `mod` d) ?= d with
  | Lt => f
  | Gt => f + 1
  | Eq => if Z.even f then f else f + 1
  end.

(** A Python [float] (an [int] is a finite one). *)
Inductive pyfloat :=
| Finite (q : Q)
| Infinity (negative : bool)
| NaN.

(** [round(x)]: [ValueError] on NaN, [OverflowError] on an infinity. *)
Definition py_round (x : pyfloat) : result Z :=
  match x with
  | Finite q => Ok (round_half_even q)
  | Infinity _ => Raise OverflowError
  | NaN => Raise ValueError
  end.

(** ** [TrackingBbox] *)

(** Modelled from the spec: the class [TrackingBbox] is imported from
    [utils_cv/tracking/bbox.py], which is not among the sources.  The
    specification's data model gives it an integer frame index, an integer
    track identifier and four floating-point pixel coordinates. *)
Record TrackingBbox := {
  frame_id : Z;
  track_id : Z;
  bb_left : pyfloat;
  bb_top : pyfloat;
  bb_right : pyfloat;
  bb_bottom : pyfloat
}.

(** ** The OpenCV interface *)

(** The drawing primitives used by [_draw_boxes].  In Python they mutate
    the image in place; here they return the mutated image, or [None]
    when OpenCV rejects the arguments and raises (a point that does not
    fit its integer type, for one).  [getTextSize] returns
    [((width, height), baseline)]. *)
Class Canvas (image : Type) := {
  rectangle : image → Z * Z → Z * Z → color → Z → option image;
  putText : image → string → Z * Z → Z → Z → color → Z → option image;
  getTextSize : string → Z → Z → Z → (Z * Z) * Z
}.

(** The outcome of an OpenCV call as Python sees it. *)
Definition cv2_call {A} (o : option A) : result A :=
  match o with
  | Some a => Ok a
  | None => Raise Cv2Error
  end.

Inductive cap_prop := CAP_PROP_FRAME_WIDTH | CAP_PROP_FRAME_HEIGHT | CAP_PROP_FPS.

(** What OpenCV decides on its own: the value [get] reports on a capture
    that is not open, and whether a writer with given settings opens. *)
Class Backend := {
  closed_get : cap_prop → Q;
  writer_opens : string → Z → Z → Z * Z → bool
}.

Definition FONT_HERSHEY_SIMPLEX : Z := 0.

(** [CV_FOURCC]: the four characters packed little-endian. *)
Definition VideoWriter_fourcc (c1 c2 c3 c4 : Ascii.ascii) : Z :=
  let ord (c : Ascii.ascii) := Z.of_N (Ascii.N_of_ascii c) in
  Z.land (ord c1) 255 + Z.shiftl (Z.land (ord c2) 255) 8
  + Z.shiftl (Z.land (ord c3) 255) 16 + Z.shiftl (Z.land (ord c4) 255) 24.

(** A readable video file: its metadata and its frames in order. *)
Record VideoFile (image : Type) := {
  vf_width : Z;
  vf_height : Z;
  vf_fps : Q;
  vf_frames : list image
}.
Arguments vf_width {image} _.
Arguments vf_height {image} _.
Arguments vf_fps {image} _.
Arguments vf_frames {image} _.

(** The files that can be opened for reading; [None] is an unreadable
    path. *)
Definition filesystem (image : Type) : Type := string → option (VideoFile image).

(** [cv2.VideoCapture]: the opened file (if any), the frames not yet
    grabbed, and the frame grabbed last. *)
Record VideoCapture (image : Type) := {
  cap_source : option (VideoFile image);
  cap_pending : list image;
  cap_grabbed : option image
}.
Arguments cap_source {image} _.
Arguments cap_pending {image} _.
Arguments cap_grabbed {image} _.

(** [cv2.VideoWriter]: the constructor arguments, whether the writer
    opened, and the frames written so far, oldest first. *)
Record VideoWriter (image : Type) := {
  w_filename : string;
  w_fourcc : Z;
  w_fps : Z;
  w_frameSize : Z * Z;
  w_opened : bool;
  w_frames : list image
}.
Arguments w_filename {image} _.
Arguments w_opened {image} _.
Arguments w_fourcc {image} _.
Arguments w_fps {image} _.
Arguments w_frameSize {image} _.
Arguments w_frames {image} _.

Module cv2.
Section cv2.
Context {image : Type} `{!Backend}.

(** [cv2.VideoCapture()] *)
Definition VideoCapture_new : VideoCapture image :=
  {| cap_source := None; cap_pending := []; cap_grabbed := None |}.

(** [video.open(path)]; the boolean it returns is dropped by the caller,
    so only the new state of the capture is kept. *)
Definition open (fs : filesystem image) (video : VideoCapture image)
    (path : string) : VideoCapture image :=
  match fs path with
  | Some f =>
      {| cap_source := Some f; cap_pending := vf_frames f; cap_grabbed := None |}
  | None => VideoCapture_new
  end.

(** [video.get(prop)]: a float; on a capture that is not open, the value
    the backend chooses. *)
Definition get (video : VideoCapture image) (p : cap_prop) : Q :=
  match cap_source video with
  | None => closed_get p
  | Some f =>
      match p with
      | CAP_PROP_FRAME_WIDTH => inject_Z (vf_width f)
      | CAP_PROP_FRAME_HEIGHT => inject_Z (vf_height f)
      | CAP_PROP_FPS => vf_fps f
      end
  end.

(** [video.grab()]: advance to the next frame; [False] at the end of the
    stream and on a capture that is not open. *)
Definition grab (video : VideoCapture image) : bool * VideoCapture image :=
  match cap_pending video with
  | [] =>
      (false, {| cap_source := cap_source video; cap_pending := [];
                 cap_grabbed := None |})
  | f :: rest =>
      (true, {| cap_source := cap_source video; cap_pending := rest;
                cap_grabbed := Some f |})
  end.

(** [video.retrieve()[1]]: the grabbed frame, [None] when there is
    none. *)
Definition retrieve (video : VideoCapture image) : option image :=
  cap_grabbed video.

(** [cv2.VideoWriter(filename, fourcc, fps, frameSize)] *)
Definition VideoWriter_new (filename : string) (fourcc fps : Z)
    (frameSize : Z * Z) : VideoWriter image :=
  {| w_filename := filename; w_fourcc := fourcc; w_fps := fps;
     w_frameSize := frameSize;
     w_opened := writer_opens filename fourcc fps frameSize;
     w_frames := [] |}.

(** An OpenCV call that needs an image raises on Python's [None]. *)
Definition the_image (o : option image) : result image :=
  match o with
  | Some im => Ok im
  | None => Raise Cv2Error
  end.

(** The writer after it has encoded the frames [ims], in order. *)
Definition append_frames (writer : VideoWriter image) (ims : list image)
    : VideoWriter image :=
  {| w_filename := w_filename writer; w_fourcc := w_fourcc writer;
     w_fps := w_fps writer; w_frameSize := w_frameSize writer;
     w_opened := w_opened writer;
     w_frames := w_frames writer ++ ims |}.

(** The writer after [write] has been called with each of [ims]: a
    writer that did not open keeps nothing, and says nothing. *)
Definition persist (writer : VideoWriter image) (ims : list image)
    : VideoWriter image :=
  if w_opened writer then append_frames writer ims else writer.

(** [writer.write(image)] *)
Definition write (writer : VideoWriter image) (o : option image)
    : result (VideoWriter image) :=
  im ←! the_image o ;;
  Ok (persist writer [im]).
End cv2.
End cv2.

(** [list(set(xs))]: the distinct elements of [xs] in the iteration order
    of the hash set, which the language leaves unspecified.  The order is
    a parameter; all that is known of it is that no element is repeated
    and none is lost or invented. *)
Class SetOrder := {
  list_set : list Z → list Z;
  list_set_NoDup : ∀ xs, NoDup (list_set xs);
  list_set_elem : ∀ xs x, x ∈ list_set xs ↔ x ∈ xs
}.

(** ** [_draw_boxes] *)

Section draw.
Context {image : Type} `{!Canvas image}.

(** The body of [for tid, bb in tracks.items()]. *)
Definition draw_track (color_map : gmap Z color) (im : image) (tid : Z)
    (bb : TrackingBbox) : result image :=
  left ←! py_round (bb_left bb) ;;
  top ←! py_round (bb_top bb) ;;
  right ←! py_round (bb_right bb) ;;
  bottom ←! py_round (bb_bottom bb) ;;
  color ←! dict_get color_map tid ;;
  let label := pretty tid in
  let t_size := (getTextSize label FONT_HERSHEY_SIMPLEX 1 1).1 in
  im ←! cv2_call (rectangle im (left, top) (right, bottom) color 3) ;;
  cv2_call (putText im ("id_" +:+ label) (left, top + t_size.2 - 30)
              FONT_HERSHEY_SIMPLEX 1 color 3).

Fixpoint draw_tracks (color_map : gmap Z color) (im : image)
    (its : list (Z * TrackingBbox)) : result image :=
  match its with
  | [] => Ok im
  | (tid, bb) :: rest =>
      im ←! draw_track color_map im tid bb ;;
      draw_tracks color_map im rest
  end.

Definition _draw_boxes (im : image) (cur_tracks : list TrackingBbox)
    (color_map : gmap Z color) : result image :=
  let cur_ids := track_id <$> cur_tracks in
  let tracks := of_pairs (zip cur_ids cur_tracks) in
  draw_tracks color_map im (items tracks).
End draw.

(** ** [_write_video] and [plot_results] *)

(** [sorted(results.items())] compares the keys only: they are distinct. *)
Definition key_le : relation (Z * list TrackingBbox) := λ a b, a.1 ≤ b.1.

#[local] Instance key_le_dec a b : Decision (key_le a b) :=
  Z_le_dec a.1 b.1.

(** [OrderedDict(sorted(results.items()))] *)
Definition sorted_results (results : gmap Z (list TrackingBbox))
    : odict (list TrackingBbox) :=
  of_pairs (merge_sort key_le (map_to_list results)).

Section pipeline.
Context {image : Type} `{!Canvas image} `{!Backend} `{!SetOrder}.

(** Lines 60 and 61: the colour map of all identifiers in [results]. *)
Definition color_map_for (results : odict (list TrackingBbox))
    : gmap Z color :=
  let unique_ids :=
    list_set (frame ← values results; track_id <$> frame) in
  _compute_color_for_all_labels unique_ids.

(** The body of [while video.grab()], after the grab.  The writer is
    the only object changed that the caller can still see after an
    exception, and it changes in the last statement only.
    [cv2.the_image] stands for the first use of the frame; after a grab
    that succeeded there is a frame, so it does not raise. *)
Definition frame_body (results : odict (list TrackingBbox))
    (color_map : gmap Z color) (video : VideoCapture image)
    (writer : VideoWriter image) (frame_idx : Z)
    : result (VideoWriter image) :=
  let cur_image := cv2.retrieve video in
  cur_tracks ←! OrderedDict.get results frame_idx ;;
  cur_image ←!
    (if bool_decide (0 < length cur_tracks)%nat then
       im ←! cv2.the_image cur_image ;;
       im ←! _draw_boxes im cur_tracks color_map ;;
       Ok (Some im)
     else Ok cur_image) ;;
  cv2.write writer cur_image.

(** The [while] loop.  [None] only when [fuel] runs out; the result
    pairs the writer as the loop leaves it with the outcome. *)
Fixpoint frame_loop (fuel : nat) (results : odict (list TrackingBbox))
    (color_map : gmap Z color) (video : VideoCapture image)
    (writer : VideoWriter image) (frame_idx : Z)
    : option (VideoWriter image * result ()) :=
  match fuel with
  | O => None
  | S fuel =>
      let '(grabbed, video) := cv2.grab video in
      if grabbed then
        match frame_body results color_map video writer frame_idx with
        | Ok writer =>
            frame_loop fuel results color_map video writer (frame_idx + 1)
        | Raise e => Some (writer, Raise e)
        end
      else Some (writer, Ok ())
  end.

(** The fuel handed to the loop is one more than the number of frames
    still to be grabbed, which is how often [video.grab()] is called. *)
Definition _write_video (fs : filesystem image)
    (results : odict (list TrackingBbox)) (input_video output_video : string)
    : option (VideoWriter image * result ()) :=
  let video := cv2.open fs cv2.VideoCapture_new input_video in
  let image_width := py_int (cv2.get video CAP_PROP_FRAME_WIDTH) in
  let image_height := py_int (cv2.get video CAP_PROP_FRAME_HEIGHT) in
  let fourcc := VideoWriter_fourcc "M"%char "P"%char "4"%char "V"%char in
  let frame_rate := py_int (cv2.get video CAP_PROP_FPS) in
  let writer :=
    cv2.VideoWriter_new output_video fourcc frame_rate
      (image_width, image_height) in
  let color_map := color_map_for results in
  frame_loop (S (length (cap_pending video))) results color_map video writer 0.

(** What [plot_results] prints and what it returns. *)
Record report := { printed : string; returned : string }.

Definition plot_results (fs : filesystem image)
    (results : gmap Z (list TrackingBbox)) (input_video output_video : string)
    : option (VideoWriter image * result report) :=
  out ← _write_video fs (sorted_results results) input_video output_video;
  Some (out.1,
        _ ←! out.2 ;;
        Ok {| printed := "Output saved to " +:+ output_video +:+ ".";
              returned := output_video |}).
End pipeline.

(** ** Specification-side notions

    These are not translations of any function of [plot.py]; the theorems
    below relate the embedding to them. *)

(** The final box of the sequence that carries the identifier [tid]. *)
Definition last_box (tid : Z) (cur_tracks : list TrackingBbox)
    : option TrackingBbox :=
  last (filter (λ bb, track_id bb = tid) cur_tracks).

Section summary.
Context {image : Type} `{!Canvas image}.

(** The frame that a turn of the loop hands to the writer when it meets
    the frame [im] at index [frame_idx]. *)
Definition annotated (results : odict (list TrackingBbox))
    (color_map : gmap Z color) (frame_idx : Z) (im : image) : result image :=
  cur_tracks ←! OrderedDict.get results frame_idx ;;
  if bool_decide (0 < length cur_tracks)%nat
  then _draw_boxes im cur_tracks color_map
  else Ok im.

(** The frames written for the source frames [frames], the first of
    which is met at index [frame_idx], up to the first exception. *)
Fixpoint run_frames (results : odict (list TrackingBbox))
    (color_map : gmap Z color) (frames : list image) (frame_idx : Z)
    : list image * result () :=
  match frames with
  | [] => ([], Ok ())
  | im :: rest =>
      match annotated results color_map frame_idx im with
      | Ok im' =>
          let out := run_frames results color_map rest (frame_idx + 1) in
          (im' :: out.1, out.2)
      | Raise e => ([], Raise e)
      end
  end.
End summary.

(** The members of [l] without repetition, each at the place where it
    is met first. *)
Fixpoint first_seen (l : list Z) : list Z :=
  match l with
  | [] => []
  | x :: l' => x :: filter (λ y, y ≠ x) (first_seen l')
  end.

(** The box [bb] with another value in its [frame_id] field. *)
Definition with_frame_id (fid : Z) (bb : TrackingBbox) : TrackingBbox :=
  {| frame_id := fid; track_id := track_id bb;
     bb_left := bb_left bb; bb_top := bb_top bb;
     bb_right := bb_right bb; bb_bottom := bb_bottom bb |}.

(** ** Concrete instances used in the examples *)

(** A canvas that records the drawing calls made on a frame and rejects
    a point outside the 32-bit range; the frame itself is a number. *)
Inductive draw_call :=
| Rectangle (pt1 pt2 : Z * Z) (c : color) (thickness : Z)
| PutText (text : string) (org : Z * Z) (font scale : Z) (c : color) (thickness : Z).

Definition traced : Type := Z * list draw_call.

(** Whether a point fits OpenCV's 32-bit coordinates. *)
Definition fits_int32 (pt : Z * Z) : bool :=
  bool_decide (- 2 ^ 31 ≤ pt.1 < 2 ^ 31 ∧ - 2 ^ 31 ≤ pt.2 < 2 ^ 31).

#[local] Instance traced_canvas : Canvas traced := {|
  rectangle im pt1 pt2 c th :=
    if fits_int32 pt1 && fits_int32 pt2
    then Some (im.1, im.2 ++ [Rectangle pt1 pt2 c th])
    else None;
  putText im text org font scale c th :=
    if fits_int32 org
    then Some (im.1, im.2 ++ [PutText text org font scale c th])
    else None;
  getTextSize text font scale th :=
    ((20 * Z.of_nat (String.length text), 22), 10)
|}.

(** A backend that reports -1 on a capture that is not open and opens a
    writer when its frame rate and its frame size are positive. *)
#[local] Instance sample_backend : Backend := {|
  closed_get _ := (-1)%Q;
  writer_opens _ _ fps size := bool_decide (0 < fps ∧ 0 < size.1 ∧ 0 < size.2)
|}.

(** One possible iteration order of a set. *)
#[local] Instance some_order : SetOrder := {|
  list_set := remove_dups;
  list_set_NoDup := NoDup_remove_dups;
  list_set_elem xs x := elem_of_remove_dups xs x
|}.

(** A box for track [tid]. *)
Definition box (tid : Z) (l t r b : Q) : TrackingBbox :=
  {| frame_id := 0; track_id := tid;
     bb_left := Finite l; bb_top := Finite t;
     bb_right := Finite r; bb_bottom := Finite b |}.

(** A clip of [n] blank frames, numbered from 0, at 640x480. *)
Definition clip (fps : Q) (n : nat) : VideoFile traced :=
  {| vf_width := 640; vf_height := 480; vf_fps := fps;
     vf_frames := (λ i, (i, [])) <$> seqZ 0 (Z.of_nat n) |}.

(** A file system with one readable file, ["in.mp4"]. *)
Definition only_file (f : VideoFile traced) : filesystem traced :=
  λ path, if decide (path = "in.mp4") then Some f else None.

(** Results with boxes on frame 0 only, for frames 0 and 1. *)
Definition two_frames : gmap Z (list TrackingBbox) :=
  <[0 := [box 1 1 2 3 4]]> (<[1 := []]> ∅).

(** Results for frames 0, 1 and 2 whose box on frame 1 has a coordinate
    beyond 32 bits. *)
Definition frame_1_unfit : gmap Z (list TrackingBbox) :=
  <[0 := [box 1 1 2 3 4]]>
    (<[1 := [box 1 3000000000 2 3 4]]> (<[2 := []]> ∅)).

(** Results that lack frame 1. *)
Definition frame_1_missing : gmap Z (list TrackingBbox) :=
  <[0 := [box 1 1 2 3 4]]> (<[2 := []]> ∅).

(** * Properties *)

(** ** Dictionaries *)

Section dict_facts.
Context {V : Type}.
Implicit Types (l : list (Z * V)) (k : Z) (v : V).

Lemma dict_of_pairs_snoc l k v :
  dict_of_pairs (l ++ [(k, v)]) = <[k := v]> (dict_of_pairs l).
Proof. unfold dict_of_pairs. by rewrite foldl_snoc. Qed.

(** Inserting left to right is building the map from the reversed list
    right to left. *)
Lemma dict_of_pairs_list_to_map l :
  dict_of_pairs l = list_to_map (reverse l).
Proof.
  induction l as [|[k v] l IH] using rev_ind; [done|].
  by rewrite dict_of_pairs_snoc, reverse_snoc, list_to_map_cons, IH.
Qed.

Lemma dom_dict_of_pairs l : dom (dict_of_pairs l) = list_to_set l.*1.
Proof.
  rewrite dict_of_pairs_list_to_map, dom_list_to_map_L, fmap_reverse.
  apply set_eq. intros k. by rewrite !elem_of_list_to_set, elem_of_reverse.
Qed.

Lemma dict_of_pairs_lookup_Some l k v :
  dict_of_pairs l !! k = Some v → (k, v) ∈ l.
Proof.
  rewrite dict_of_pairs_list_to_map. intros Hk.
  apply elem_of_list_to_map_2 in Hk. by rewrite elem_of_reverse in Hk.
Qed.

Lemma dict_of_pairs_lookup_NoDup l k v :
  NoDup l.*1 → (k, v) ∈ l → dict_of_pairs l !! k = Some v.
Proof.
  intros Hnd Hin. rewrite dict_of_pairs_list_to_map.
  apply elem_of_list_to_map_1.
  - by rewrite fmap_reverse, reverse_Permutation.
  - by apply elem_of_reverse.
Qed.
End dict_facts.

(** ** The colour palette *)

Section colors.
Implicit Types (id_list : list Z) (i : nat) (id : Z) (c : color).

Lemma color_pairs_lookup id_list i id :
  id_list !! i = Some id →
  color_pairs id_list !! i = Some (id, color_at (Z.of_nat i)).
Proof.
  intros Hi. apply lookup_zip_Some. split; [done|].
  rewrite list_lookup_fmap, lookup_seqZ_lt; [done|].
  apply lookup_lt_Some in Hi. lia.
Qed.

Lemma color_pairs_fst id_list : (color_pairs id_list).*1 = id_list.
Proof.
  apply fst_zip. rewrite length_fmap, length_seqZ. lia.
Qed.

Lemma color_pairs_elem id_list id c :
  (id, c) ∈ color_pairs id_list →
  ∃ i, id_list !! i = Some id ∧ c = color_at (Z.of_nat i).
Proof.
  intros [i Hi]%list_elem_of_lookup. exists i.
  apply lookup_zip_Some in Hi as [Hid Hc]. split; [done|].
  rewrite list_lookup_fmap in Hc.
  destruct (seqZ 0 _ !! i) as [z|] eqn:Hz; [|done].
  apply lookup_seqZ in Hz as [-> _]. simpl in Hc. by injection Hc as <-.
Qed.

Lemma color_map_lookup id_list i id :
  NoDup id_list → id_list !! i = Some id →
  _compute_color_for_all_labels id_list !! id = Some (color_at (Z.of_nat i)).
Proof.
  intros Hnd Hi. apply dict_of_pairs_lookup_NoDup.
  - fold (color_pairs id_list). by rewrite color_pairs_fst.
  - apply list_elem_of_lookup. exists i. by apply color_pairs_lookup.
Qed.

Lemma color_map_dom id_list :
  dom (_compute_color_for_all_labels id_list) = list_to_set id_list.
Proof.
  unfold _compute_color_for_all_labels. rewrite dom_dict_of_pairs.
  fold (color_pairs id_list). by rewrite color_pairs_fst.
Qed.

Lemma color_map_is_Some id_list id :
  id ∈ id_list → is_Some (_compute_color_for_all_labels id_list !! id).
Proof.
  intros Hin. apply elem_of_dom. rewrite color_map_dom.
  by apply elem_of_list_to_set.
Qed.

Lemma color_at_range z :
  let '(r, g, b) := color_at z in
  (0 ≤ r ≤ 254) ∧ (0 ≤ g ≤ 254) ∧ (0 ≤ b ≤ 254).
Proof.
  unfold color_at, palette.
  repeat split;
    match goal with
    | |- context [?a `mod` 255] =>
        pose proof (Z.mod_pos_bound a 255 ltac:(lia)); lia
    end.
Qed.
End colors.

Section color_claims.
Implicit Types (id_list : list Z) (i : nat) (id : Z) (c : color).

(** Two lists of the same length that differ, differ at some index. *)
Lemma differ_at {A} `{!EqDecision A} (l1 l2 : list A) :
  length l1 = length l2 → l1 ≠ l2 →
  ∃ i a b, l1 !! i = Some a ∧ l2 !! i = Some b ∧ a ≠ b.
Proof.
  revert l2. induction l1 as [|x l1 IH]; intros [|y l2] Hlen Hne;
    simplify_eq/=; try done.
  destruct (decide (x = y)) as [->|Hxy].
  - destruct (IH l2) as (i & a & b & ? & ? & ?); [done|congruence|].
    by exists (S i), a, b.
  - by exists 0%nat, x, y.
Qed.

(** The first three colours are pairwise different. *)
Lemma color_at_small_inj i j :
  (i < 3)%nat → (j < 3)%nat →
  color_at (Z.of_nat i) = color_at (Z.of_nat j) → i = j.
Proof.
  intros Hi Hj.
  destruct i as [|[|[|i]]], j as [|[|[|j]]]; try lia; try done;
    vm_compute; discriminate.
Qed.

Lemma color_at_0_3 : color_at 0 = color_at 3.
Proof. reflexivity. Qed.

(** Exchanging the identifiers at positions 0 and 3 gives the same
    mapping. *)
Lemma color_map_swap_0_3 (a b c d : Z) (rest : list Z) :
  NoDup (a :: b :: c :: d :: rest) →
  _compute_color_for_all_labels (a :: b :: c :: d :: rest)
  = _compute_color_for_all_labels (d :: b :: c :: a :: rest).
Proof.
  intros Hnd. unfold _compute_color_for_all_labels, dict_of_pairs.
  cbn [length]. rewrite !Nat2Z.inj_succ.
  do 4 (rewrite seqZ_cons by lia; rewrite Z.pred_succ).
  cbn [fmap list_fmap zip zip_with foldl fst snd].
  change (Z.succ (Z.succ (Z.succ 0))) with 3.
  rewrite <- color_at_0_3. f_equal.
  apply NoDup_cons in Hnd as [Ha Hnd]. apply NoDup_cons in Hnd as [Hb Hnd].
  apply NoDup_cons in Hnd as [Hc _].
  assert (a ≠ b ∧ a ≠ c ∧ a ≠ d ∧ b ≠ c ∧ b ≠ d ∧ c ≠ d)
    as (? & ? & ? & ? & ? & ?) by set_solver.
  apply map_eq. intros k. rewrite !lookup_insert.
  repeat case_decide; congruence.
Qed.

(** C3 (amended).  For the enumeration order [[5; 9]] the identifier at
    index 0, identifier 5, receives
    [(2047*2 mod 255, 32767*2 mod 255, 1048575*2 mod 255)], which is
    [(14, 254, 30)]. *)
Theorem color_of_5_in_5_9 :
  _compute_color_for_all_labels [5; 9] !! 5 = Some (14, 254, 30)
  ∧ color_at 0
    = ((2047 * 2) `mod` 255, (32767 * 2) `mod` 255, (1048575 * 2) `mod` 255)
  ∧ ((2047 * 2) `mod` 255, (32767 * 2) `mod` 255, (1048575 * 2) `mod` 255)
    = (14, 254, 30).
Proof. repeat split; vm_compute; reflexivity. Qed.

(** C3 as stated fails: identifier 5 does not receive [(14, 44, 0)]. *)
Lemma color_of_5_in_5_9_not_14_44_0 :
  _compute_color_for_all_labels [5; 9] !! 5 ≠ Some (14, 44, 0).
Proof. vm_compute. discriminate. Qed.

(** C7.  For a list of distinct identifiers the mapping has an entry
    for exactly the identifiers of the list, one each; for the empty
    list it is the empty mapping. *)
Theorem color_map_domain id_list :
  NoDup id_list →
  dom (_compute_color_for_all_labels id_list) = list_to_set id_list
  ∧ (∀ id, id ∈ id_list ↔ is_Some (_compute_color_for_all_labels id_list !! id))
  ∧ (∀ id, id ∉ id_list → _compute_color_for_all_labels id_list !! id = None)
  ∧ size (_compute_color_for_all_labels id_list) = length id_list
  ∧ _compute_color_for_all_labels [] = ∅.
Proof.
  intros Hnd. pose proof (color_map_dom id_list) as Hdom.
  split_and!; [done| | | |done].
  - intros id. by rewrite <- elem_of_dom, Hdom, elem_of_list_to_set.
  - intros id Hid. apply not_elem_of_dom.
    by rewrite Hdom, elem_of_list_to_set.
  - by rewrite <- size_dom, Hdom, size_list_to_set.
Qed.

Lemma color_map_domain_witness :
  dom (_compute_color_for_all_labels [7; 3; 11]) = list_to_set [7; 3; 11]
  ∧ size (_compute_color_for_all_labels [7; 3; 11]) = 3%nat.
Proof.
  assert (NoDup [7; 3; 11]) as Hnd by compute_done.
  destruct (color_map_domain [7; 3; 11] Hnd) as (? & _ & _ & ? & _).
  split; assumption.
Defined.

(** C9.  In every identifier list of at least four members, the
    identifiers at positions 0 and 3 are paired with the same colour,
    because the multiplier [(i+1)^5 - i + 1] is 2 modulo 255 at both
    [i = 0] and [i = 3]; when the identifiers are distinct, these are two
    different identifiers and the returned mapping gives both that
    colour. *)
Theorem colors_collide_at_0_and_3 id_list :
  (4 ≤ length id_list)%nat →
  ∃ id0 id3 c,
    id_list !! 0%nat = Some id0 ∧ id_list !! 3%nat = Some id3
    ∧ color_pairs id_list !! 0%nat = Some (id0, c)
    ∧ color_pairs id_list !! 3%nat = Some (id3, c)
    ∧ c = color_at 0 ∧ c = color_at 3
    ∧ ((0 + 1) ^ 5 - 0 + 1) `mod` 255 = 2
    ∧ ((3 + 1) ^ 5 - 3 + 1) `mod` 255 = 2
    ∧ (NoDup id_list →
       id0 ≠ id3
       ∧ _compute_color_for_all_labels id_list !! id0 = Some c
       ∧ _compute_color_for_all_labels id_list !! id3 = Some c).
Proof.
  intros Hlen.
  destruct id_list as [|a [|b [|c' [|d rest]]]]; simpl in Hlen; try lia.
  exists a, d, (color_at 0). split_and!; try done.
  - by apply (color_pairs_lookup _ 0%nat).
  - rewrite color_at_0_3. by apply (color_pairs_lookup _ 3%nat).
  - intros Hnd. split_and!.
    + intros ->. apply NoDup_cons in Hnd as [Ha _]. set_solver.
    + by apply (color_map_lookup _ 0%nat).
    + rewrite color_at_0_3. by apply (color_map_lookup _ 3%nat).
Qed.

Lemma colors_collide_at_0_and_3_witness :
  ∃ id0 id3 c,
    [8; 6; 4; 2; 0] !! 0%nat = Some id0 ∧ [8; 6; 4; 2; 0] !! 3%nat = Some id3
    ∧ id0 ≠ id3
    ∧ _compute_color_for_all_labels [8; 6; 4; 2; 0] !! id0 = Some c
    ∧ _compute_color_for_all_labels [8; 6; 4; 2; 0] !! id3 = Some c
    ∧ c = color_at 0 ∧ c = color_at 3.
Proof.
  destruct (colors_collide_at_0_and_3 [8; 6; 4; 2; 0])
    as (id0 & id3 & c & H0 & H3 & _ & _ & Hc0 & Hc3 & _ & _ & Hmap);
    [simpl; lia|].
  destruct Hmap as (Hne & Hm0 & Hm3); [compute_done|].
  exists id0, id3, c. repeat split; assumption.
Defined.

(** C10.  Every channel of every colour in the mapping lies between 0
    and 254; 255 does not occur. *)
Theorem color_channels_range id_list id r g b :
  _compute_color_for_all_labels id_list !! id = Some (r, g, b) →
  (0 ≤ r ≤ 254 ∧ 0 ≤ g ≤ 254 ∧ 0 ≤ b ≤ 254)
  ∧ r ≠ 255 ∧ g ≠ 255 ∧ b ≠ 255.
Proof.
  intros Hc. apply dict_of_pairs_lookup_Some in Hc.
  apply color_pairs_elem in Hc as (i & _ & Hc).
  pose proof (color_at_range (Z.of_nat i)) as Hr. rewrite <- Hc in Hr. lia.
Qed.

Lemma color_channels_range_witness :
  (0 ≤ 224 ≤ 254 ∧ 0 ≤ 239 ≤ 254 ∧ 0 ≤ 225 ≤ 254)
  ∧ 224 ≠ 255 ∧ 239 ≠ 255 ∧ 225 ≠ 255.
Proof.
  apply (color_channels_range [5; 9] 9 224 239 225). reflexivity.
Defined.
End color_claims.

Section reordering.
Implicit Types (l : list Z) (id : Z).

(** Under any two enumerations, identifiers met at the same position
    get the same colour: the colour is a function of the position. *)
Lemma color_by_position l1 l2 (i : nat) id1 id2 :
  NoDup l1 → NoDup l2 → l1 !! i = Some id1 → l2 !! i = Some id2 →
  _compute_color_for_all_labels l1 !! id1
  = _compute_color_for_all_labels l2 !! id2.
Proof.
  intros Hnd1 Hnd2 H1 H2.
  by rewrite (color_map_lookup l1 i id1 Hnd1 H1),
             (color_map_lookup l2 i id2 Hnd2 H2).
Qed.

(** A reordering of at most three identifiers recolours one of them. *)
Lemma reorder_small_changes l l' :
  NoDup l → l ≡ₚ l' → l ≠ l' → (length l ≤ 3)%nat →
  ∃ id, id ∈ l
    ∧ _compute_color_for_all_labels l !! id
      ≠ _compute_color_for_all_labels l' !! id.
Proof.
  intros Hnd Hp Hne Hlen.
  assert (NoDup l') as Hnd' by by rewrite <- Hp.
  destruct (differ_at l l') as (i & a & b & Hia & Hib & Hab);
    [by apply Permutation_length|done|].
  assert (a ∈ l') as [j Hj]%list_elem_of_lookup.
  { rewrite <- Hp. by eapply list_elem_of_lookup_2. }
  exists a. split; [by eapply list_elem_of_lookup_2|].
  rewrite (color_map_lookup _ _ _ Hnd Hia), (color_map_lookup _ _ _ Hnd' Hj).
  intros Hc. apply (inj Some), color_at_small_inj in Hc.
  - subst j. congruence.
  - apply lookup_lt_Some in Hia. lia.
  - apply lookup_lt_Some in Hj. apply Permutation_length in Hp. lia.
Qed.

(** Four or more identifiers can be reordered without recolouring
    any. *)
Lemma reorder_large_may_keep l :
  NoDup l → (4 ≤ length l)%nat →
  ∃ l', l ≡ₚ l' ∧ l ≠ l'
    ∧ _compute_color_for_all_labels l = _compute_color_for_all_labels l'.
Proof.
  intros Hnd Hlen.
  destruct l as [|a [|b [|c [|d rest]]]]; simpl in Hlen; try lia.
  exists (d :: b :: c :: a :: rest). split_and!.
  - solve_Permutation.
  - intros [= -> _]. apply NoDup_cons in Hnd as [Ha _]. set_solver.
  - by apply color_map_swap_0_3.
Qed.

(** What a reordering does in the code.  The colour of an identifier is
    a function of its position in the enumeration: the same order gives
    the same colours.  A reordering of a list of distinct identifiers
    (which has at least two members) changes the colour of at least one
    identifier when the list has at most three members; a list of four or
    more members has a reordering that changes no colour, positions 0 and
    3 sharing one colour. *)
Lemma color_map_reordering l l' :
  NoDup l → l ≡ₚ l' → l ≠ l' →
  (2 ≤ length l)%nat
  ∧ (∀ (i : nat) id id', l !! i = Some id → l' !! i = Some id' →
       _compute_color_for_all_labels l !! id
       = _compute_color_for_all_labels l' !! id')
  ∧ ((length l ≤ 3)%nat →
     ∃ id, id ∈ l
       ∧ _compute_color_for_all_labels l !! id
         ≠ _compute_color_for_all_labels l' !! id)
  ∧ ((4 ≤ length l)%nat →
     ∃ l'', l ≡ₚ l'' ∧ l ≠ l''
       ∧ _compute_color_for_all_labels l = _compute_color_for_all_labels l'').
Proof.
  intros Hnd Hp Hne. split_and!.
  - destruct l as [|a [|b l]]; simpl; [| |lia].
    + apply Permutation_nil_l in Hp. congruence.
    + apply Permutation_singleton_l in Hp. congruence.
  - intros i id id' Hi Hi'. eapply color_by_position; [done| |done..].
    by rewrite <- Hp.
  - by apply reorder_small_changes.
  - by apply reorder_large_may_keep.
Qed.

Lemma color_map_reordering_witness :
  ∃ id, id ∈ [5; 9]
    ∧ _compute_color_for_all_labels [5; 9] !! id
      ≠ _compute_color_for_all_labels [9; 5] !! id.
Proof.
  destruct (color_map_reordering [5; 9] [9; 5]) as (_ & _ & H & _).
  - compute_done.
  - apply perm_swap.
  - discriminate.
  - apply H. simpl. lia.
Defined.

(** C4.  The code at the failing input: [[4; 2; 3; 1]] is a reordering
    of the four distinct identifiers [[1; 2; 3; 4]], and no identifier
    changes colour, because the code gives the distinct identifiers 1 and
    4 one and the same colour, where its docstring promises unique
    colours for unique identifiers. *)
Lemma reordering_keeps_all_colors :
  NoDup [1; 2; 3; 4] ∧ [1; 2; 3; 4] ≡ₚ [4; 2; 3; 1]
  ∧ [1; 2; 3; 4] ≠ [4; 2; 3; 1] ∧ (2 ≤ length [1; 2; 3; 4])%nat
  ∧ (¬ ∃ id, _compute_color_for_all_labels [1; 2; 3; 4] !! id
             ≠ _compute_color_for_all_labels [4; 2; 3; 1] !! id)
  ∧ _compute_color_for_all_labels [1; 2; 3; 4] !! 1 = Some (14, 254, 30)
  ∧ _compute_color_for_all_labels [1; 2; 3; 4] !! 4 = Some (14, 254, 30).
Proof.
  split_and!.
  - compute_done.
  - solve_Permutation.
  - discriminate.
  - simpl. lia.
  - intros [id Hid]. apply Hid.
    by rewrite (color_map_swap_0_3 1 2 3 4 []) by compute_done.
  - reflexivity.
  - reflexivity.
Qed.
End reordering.

(** ** Insertion-ordered dictionaries *)

Section odict_facts.
Context {V : Type}.
Implicit Types (d : odict V) (l : list (Z * V)) (k : Z) (v : V).

Lemma set_fresh k v d : k ∉ d.*1 → OrderedDict.set k v d = d ++ [(k, v)].
Proof.
  induction d as [|[k' v'] d IH]; intros Hk; simpl in *; [done|].
  apply not_elem_of_cons in Hk as [Hne Hk].
  rewrite decide_False by done. by rewrite IH.
Qed.

Lemma set_keys_present k v d :
  k ∈ d.*1 → (OrderedDict.set k v d).*1 = d.*1.
Proof.
  induction d as [|[k' v'] d IH]; intros Hk; simpl in *.
  - by apply elem_of_nil in Hk.
  - case_decide as Hkk; simpl; [done|]. f_equal. apply IH.
    apply elem_of_cons in Hk as [->|Hk]; done.
Qed.

Lemma set_NoDup k v d : NoDup d.*1 → NoDup (OrderedDict.set k v d).*1.
Proof.
  intros Hnd. destruct (decide (k ∈ d.*1)) as [Hk|Hk].
  - by rewrite set_keys_present.
  - rewrite set_fresh, fmap_app by done. simpl.
    apply NoDup_app. split_and!; [done| |apply NoDup_singleton].
    intros x Hx ->%list_elem_of_singleton. done.
Qed.

Lemma find_set k k' v d :
  find k' (OrderedDict.set k v d) = if decide (k = k') then Some v else find k' d.
Proof.
  induction d as [|[k0 v0] d IH]; simpl.
  - done.
  - destruct (decide (k0 = k)) as [->|Hk0]; simpl.
    + by repeat case_decide.
    + rewrite IH. repeat case_decide; congruence.
Qed.

Lemma of_pairs_snoc l k v :
  of_pairs (l ++ [(k, v)]) = OrderedDict.set k v (of_pairs l).
Proof. unfold of_pairs. by rewrite foldl_snoc. Qed.

Lemma of_pairs_NoDup l : NoDup (of_pairs l).*1.
Proof.
  induction l as [|[k v] l IH] using rev_ind; [constructor|].
  rewrite of_pairs_snoc. by apply set_NoDup.
Qed.

(** A list of pairs with distinct keys is its own dictionary. *)
Lemma of_pairs_id l : NoDup l.*1 → of_pairs l = l.
Proof.
  induction l as [|[k v] l IH] using rev_ind; intros Hnd; [done|].
  rewrite fmap_app in Hnd. apply NoDup_app in Hnd as (Hl & Hk & _).
  rewrite of_pairs_snoc, IH by done. apply set_fresh.
  intros Hin. apply (Hk k Hin). simpl. apply list_elem_of_singleton. done.
Qed.

Lemma find_Some_elem k v d : find k d = Some v → (k, v) ∈ d.
Proof.
  induction d as [|[k' v'] d IH]; simpl; [done|].
  case_decide as Hk.
  - intros [= ->]. subst. left.
  - intros Hf. right. by apply IH.
Qed.

Lemma elem_find_Some k v d : NoDup d.*1 → (k, v) ∈ d → find k d = Some v.
Proof.
  induction d as [|[k' v'] d IH]; simpl; intros Hnd Hin.
  - by apply elem_of_nil in Hin.
  - apply NoDup_cons in Hnd as [Hk' Hnd].
    apply elem_of_cons in Hin as [[= -> ->]|Hin].
    + by rewrite decide_True.
    + rewrite decide_False; [by apply IH|].
      intros ->. apply Hk'. apply list_elem_of_fmap. by exists (k, v).
Qed.

Lemma filter_key_absent k d : k ∉ d.*1 → filter (λ it, it.1 = k) d = [].
Proof.
  induction d as [|[k' v'] d IH]; intros Hk; [done|].
  simpl in Hk. apply not_elem_of_cons in Hk as [Hne Hk].
  rewrite filter_cons_False by (simpl; congruence). by apply IH.
Qed.

(** The items iterated for one key: exactly the entry found for it. *)
Lemma items_of_key k v d :
  NoDup d.*1 → find k d = Some v →
  filter (λ it, it.1 = k) (items d) = [(k, v)].
Proof.
  unfold items. induction d as [|[k' v'] d IH]; intros Hnd Hf; [done|].
  simpl in Hnd, Hf.
  apply NoDup_cons in Hnd as [Hk' Hnd]. case_decide as Hk.
  - injection Hf as ->. subst k'. rewrite filter_cons_True by done.
    f_equal. by apply filter_key_absent.
  - rewrite filter_cons_False by done. by apply IH.
Qed.

(** The entry of a key splits the items in two parts free of the key. *)
Lemma items_split k v d :
  NoDup d.*1 → find k d = Some v →
  ∃ pre post,
    items d = pre ++ (k, v) :: post ∧ (k ∉ pre.*1) ∧ (k ∉ post.*1).
Proof.
  intros Hnd Hf. apply find_Some_elem in Hf.
  destruct (list_elem_of_split _ _ Hf) as (pre & post & ->).
  exists pre, post. split; [done|].
  rewrite fmap_app, fmap_cons in Hnd. simpl in Hnd.
  apply NoDup_app in Hnd as (_ & Hpre & Hpost).
  apply NoDup_cons in Hpost as [Hpost _]. split; [|done].
  intros Hin. apply (Hpre k Hin). left.
Qed.

Lemma of_pairs_elem k v l : (k, v) ∈ of_pairs l → (k, v) ∈ l.
Proof.
  induction l as [|[k' v'] l IH] using rev_ind; [done|].
  rewrite of_pairs_snoc. intros Hin. apply elem_find_Some in Hin;
    [|apply set_NoDup, of_pairs_NoDup].
  rewrite find_set in Hin. apply elem_of_app. case_decide as Hk.
  - injection Hin as ->. subst. right. apply list_elem_of_singleton. done.
  - left. by apply IH, find_Some_elem.
Qed.
End odict_facts.

(** ** Drawing one frame *)

Section last_box_facts.
Implicit Types (l cur_tracks : list TrackingBbox) (bb : TrackingBbox) (tid : Z).

Lemma tracks_pairs l :
  zip (track_id <$> l) l = (λ bb, (track_id bb, bb)) <$> l.
Proof. induction l as [|bb l IH]; simpl; [done|]. f_equal. exact IH. Qed.

(** Line 88: the dictionary holds, for every identifier, the last box
    carrying it. *)
Lemma find_tracks tid l :
  find tid (of_pairs (zip (track_id <$> l) l)) = last_box tid l.
Proof.
  rewrite tracks_pairs. unfold last_box.
  induction l as [|bb l IH] using rev_ind; [done|].
  rewrite fmap_app, filter_app. simpl. rewrite of_pairs_snoc, find_set.
  case_decide as Hid.
  - rewrite filter_cons_True by done. by rewrite filter_nil, last_snoc.
  - rewrite filter_cons_False by done. by rewrite filter_nil, app_nil_r.
Qed.

(** [last_box] in terms of positions: the box sits at some position and
    no later position carries the identifier. *)
Lemma last_box_position tid l bb :
  last_box tid l = Some bb →
  ∃ k : nat, l !! k = Some bb ∧ track_id bb = tid
    ∧ ∀ (k' : nat) b, (k < k')%nat → l !! k' = Some b → track_id b ≠ tid.
Proof.
  unfold last_box. induction l as [|x l IH] using rev_ind; [done|].
  rewrite filter_app. destruct (decide (track_id x = tid)) as [Hx|Hx].
  - rewrite filter_cons_True, filter_nil, last_snoc by done.
    intros [= <-]. exists (length l). split_and!; [|done|].
    + by rewrite lookup_app_r, Nat.sub_diag by lia.
    + intros k' b Hk' Hb. apply lookup_lt_Some in Hb.
      rewrite length_app in Hb. simpl in Hb. lia.
  - rewrite filter_cons_False, filter_nil, app_nil_r by done.
    intros (k & Hk & Hid & Hlater)%IH. exists k. split_and!; [|done|].
    + by apply lookup_app_l_Some.
    + intros k' b Hk' Hb. apply lookup_app_Some in Hb as [Hb|[_ Hb]].
      * by eapply Hlater.
      * destruct (k' - length l)%nat; simplify_eq/=. done.
Qed.

Lemma last_box_is_Some tid l bb :
  bb ∈ l → track_id bb = tid → is_Some (last_box tid l).
Proof.
  intros Hin Hid. unfold last_box. apply last_is_Some.
  intros Hnil.
  by apply (filter_nil_not_elem_of (λ b, track_id b = tid) l bb Hnil Hid).
Qed.
End last_box_facts.

Section draw_facts.
Context {image : Type} `{!Canvas image}.
Implicit Types (im : image) (color_map : gmap Z color).

Lemma draw_tracks_app color_map im (a b : list (Z * TrackingBbox)) :
  draw_tracks color_map im (a ++ b)
  = (im' ←! draw_tracks color_map im a ;; draw_tracks color_map im' b).
Proof.
  revert im. induction a as [|[tid bb] a IH]; intros im; simpl; [done|].
  destruct (draw_track color_map im tid bb) as [im1|e]; simpl; [|done].
  apply IH.
Qed.

(** A turn of the loop on a box with finite coordinates, for an
    identifier that has a colour: the rectangle at the rounded corners of
    the box, then the label above its top-left corner, both in that
    colour. *)
Lemma draw_track_finite color_map im tid bb (c : color) (l t r b : Q) :
  color_map !! tid = Some c →
  bb_left bb = Finite l → bb_top bb = Finite t →
  bb_right bb = Finite r → bb_bottom bb = Finite b →
  draw_track color_map im tid bb
  = (im2 ←! cv2_call
              (rectangle im (round_half_even l, round_half_even t)
                 (round_half_even r, round_half_even b) c 3) ;;
     cv2_call
       (putText im2 ("id_" +:+ pretty tid)
          (round_half_even l,
           round_half_even t
           + (getTextSize (pretty tid) FONT_HERSHEY_SIMPLEX 1 1).1.2 - 30)
          FONT_HERSHEY_SIMPLEX 1 c 3)).
Proof.
  intros Hc Hl Ht Hr Hb. unfold draw_track, dict_get.
  by rewrite Hl, Ht, Hr, Hb, Hc.
Qed.

(** C6.  When two boxes of the frame share a track identifier, the loop
    of [_draw_boxes] has exactly one turn for that identifier, the turns
    before it and after it being for other identifiers, and that turn
    draws the last box of the sequence with that identifier: the
    rectangle at the rounded coordinates of that box and the label at
    its top-left corner, in the colour of the identifier. *)
Theorem draw_boxes_last_write_wins im (cur_tracks : list TrackingBbox)
    color_map (i j : nat) (bi bj : TrackingBbox) :
  (i < j)%nat → cur_tracks !! i = Some bi → cur_tracks !! j = Some bj →
  track_id bi = track_id bj →
  let tid := track_id bj in
  ∃ bb (k : nat) (pre post : list (Z * TrackingBbox)),
    last_box tid cur_tracks = Some bb
    ∧ cur_tracks !! k = Some bb ∧ track_id bb = tid ∧ (j ≤ k)%nat
    ∧ (∀ (k' : nat) b, (k < k')%nat → cur_tracks !! k' = Some b →
         track_id b ≠ tid)
    ∧ (tid ∉ pre.*1) ∧ (tid ∉ post.*1)
    ∧ items (of_pairs (zip (track_id <$> cur_tracks) cur_tracks))
      = pre ++ (tid, bb) :: post
    ∧ _draw_boxes im cur_tracks color_map
      = (im1 ←! draw_tracks color_map im pre ;;
         im2 ←! draw_track color_map im1 tid bb ;;
         draw_tracks color_map im2 post)
    ∧ (∀ im1 (c : color) (l t r b : Q),
         color_map !! tid = Some c →
         bb_left bb = Finite l → bb_top bb = Finite t →
         bb_right bb = Finite r → bb_bottom bb = Finite b →
         draw_track color_map im1 tid bb
         = (im2 ←! cv2_call
                     (rectangle im1 (round_half_even l, round_half_even t)
                        (round_half_even r, round_half_even b) c 3) ;;
            cv2_call
              (putText im2 ("id_" +:+ pretty tid)
                 (round_half_even l,
                  round_half_even t
                  + (getTextSize (pretty tid) FONT_HERSHEY_SIMPLEX 1 1).1.2
                  - 30)
                 FONT_HERSHEY_SIMPLEX 1 c 3))).
Proof.
  intros Hij Hi Hj Hsame tid.
  destruct (last_box_is_Some tid cur_tracks bj) as [bb Hbb];
    [by eapply list_elem_of_lookup_2|done|].
  destruct (last_box_position _ _ _ Hbb) as (k & Hk & Hid & Hlater).
  destruct (items_split tid bb
              (of_pairs (zip (track_id <$> cur_tracks) cur_tracks)))
    as (pre & post & Hitems & Hpre & Hpost);
    [apply of_pairs_NoDup|by rewrite find_tracks|].
  exists bb, k, pre, post. split_and!; try done.
  - destruct (decide (j ≤ k)%nat) as [|Hlt]; [done|].
    exfalso. apply (Hlater j bj); [lia|done..].
  - unfold _draw_boxes. rewrite Hitems. by rewrite draw_tracks_app.
  - intros im1 c l t r b. apply draw_track_finite.
Qed.
End draw_facts.

Lemma draw_boxes_last_write_wins_witness :
  last_box 1 [box 1 1 2 3 4; box 2 5 6 7 8; box 1 10 20 30 40]
  = Some (box 1 10 20 30 40)
  ∧ draw_track (_compute_color_for_all_labels [1; 2]) (7, []) 1
      (box 1 10 20 30 40)
    = Ok (7, [Rectangle (10, 20) (30, 40) (14, 254, 30) 3;
              PutText "id_1" (10, 12) 0 1 (14, 254, 30) 3]).
Proof.
  destruct (draw_boxes_last_write_wins (image := traced) (7, [])
              [box 1 1 2 3 4; box 2 5 6 7 8; box 1 10 20 30 40]
              (_compute_color_for_all_labels [1; 2])
              0 2 (box 1 1 2 3 4) (box 1 10 20 30 40))
    as (bb & k & pre & post & Hlast & _ & _ & _ & _ & _ & _ & _ & _ & Hturn);
    [lia|reflexivity..|].
  split; [reflexivity|].
  assert (bb = box 1 10 20 30 40) as ->.
  { vm_compute in Hlast. injection Hlast as <-. reflexivity. }
  etransitivity;
    [apply (Hturn (7, []) (14, 254, 30) 10%Q 20%Q 30%Q 40%Q); reflexivity|].
  reflexivity.
Defined.

(** The drawing calls made for that frame: one rectangle and one label
    per identifier, identifier 1 at the coordinates of its last box. *)
Example draw_boxes_trace :
  _draw_boxes (7, []) [box 1 1 2 3 4; box 2 5 6 7 8; box 1 10 20 30 40]
    (_compute_color_for_all_labels [1; 2])
  = Ok (7, [Rectangle (10, 20) (30, 40) (14, 254, 30) 3;
            PutText "id_1" (10, 12) 0 1 (14, 254, 30) 3;
            Rectangle (5, 6) (7, 8) (224, 239, 225) 3;
            PutText "id_2" (5, -2) 0 1 (224, 239, 225) 3]).
Proof. vm_compute. reflexivity. Qed.

(** A coordinate beyond 32 bits makes the rectangle call raise, and a
    NaN or an infinite coordinate makes [round] raise before any lookup
    or drawing. *)
Example draw_boxes_raises :
  _draw_boxes (7, []) [box 1 3000000000 2 3 4]
    (_compute_color_for_all_labels [1]) = Raise Cv2Error
  ∧ _draw_boxes (7, [])
      [{| frame_id := 0; track_id := 1; bb_left := NaN; bb_top := Finite 2;
          bb_right := Finite 3; bb_bottom := Finite 4 |}] ∅
    = Raise ValueError
  ∧ _draw_boxes (7, [])
      [{| frame_id := 0; track_id := 1; bb_left := Finite 1;
          bb_top := Infinity false; bb_right := Finite 3;
          bb_bottom := Finite 4 |}] ∅
    = Raise OverflowError.
Proof. repeat split; vm_compute; reflexivity. Qed.

(** ** The frame loop *)

Section loop_facts.
Context {image : Type} `{!Canvas image}.
Implicit Types (results : list (Z * list TrackingBbox))
  (color_map : gmap Z color) (frames : list image) (im : image)
  (video : VideoCapture image) (writer : VideoWriter image) (idx : Z).

Lemma persist_nil writer : cv2.persist writer [] = writer.
Proof.
  unfold cv2.persist, cv2.append_frames. destruct writer as [? ? ? ? [] ?];
    simpl; [|done]. by rewrite app_nil_r.
Qed.

Lemma persist_app writer (a b : list image) :
  cv2.persist (cv2.persist writer a) b = cv2.persist writer (a ++ b).
Proof.
  unfold cv2.persist, cv2.append_frames. destruct writer as [? ? ? ? [] ?];
    simpl; [|done]. by rewrite app_assoc.
Qed.

Lemma persist_frames writer (ims : list image) :
  w_frames (cv2.persist writer ims)
  = if w_opened writer then w_frames writer ++ ims else w_frames writer.
Proof. unfold cv2.persist. by destruct (w_opened writer). Qed.

Lemma persist_opened writer (ims : list image) :
  w_opened (cv2.persist writer ims) = w_opened writer.
Proof. unfold cv2.persist. by destruct (w_opened writer) eqn:H. Qed.

(** After a successful grab there is a frame to retrieve. *)
Lemma grab_retrieve video video' :
  cv2.grab video = (true, video') →
  ∃ im rest, cap_pending video = im :: rest ∧ cap_pending video' = rest
    ∧ cv2.retrieve video' = Some im.
Proof.
  unfold cv2.grab, cv2.retrieve. destruct (cap_pending video) as [|im rest];
    intros Hgrab; simplify_eq. by exists im, rest.
Qed.

(** One turn of the loop writes the annotated frame. *)
Lemma frame_body_annotated results color_map video writer idx im :
  cap_grabbed video = Some im →
  frame_body results color_map video writer idx
  = (im' ←! annotated results color_map idx im ;;
     Ok (cv2.persist writer [im'])).
Proof.
  intros Him. unfold frame_body, annotated, cv2.retrieve. rewrite Him.
  destruct (OrderedDict.get results idx) as [cur_tracks|e]; simpl; [|done].
  case_bool_decide; simpl; [|done].
  by destruct (_draw_boxes im cur_tracks color_map).
Qed.

(** With fuel for every remaining frame and the final failing grab, the
    loop returns, and [run_frames] tells what it has written. *)
Lemma frame_loop_run fuel results color_map video writer idx :
  (length (cap_pending video) < fuel)%nat →
  frame_loop fuel results color_map video writer idx
  = Some (cv2.persist writer
            (run_frames results color_map (cap_pending video) idx).1,
          (run_frames results color_map (cap_pending video) idx).2).
Proof.
  revert video writer idx.
  induction fuel as [|fuel IH]; intros video writer idx Hfuel; [lia|].
  destruct video as [src pending grabbed]. simpl in Hfuel |- *.
  unfold cv2.grab. simpl. destruct pending as [|im rest]; simpl.
  - by rewrite persist_nil.
  - rewrite (frame_body_annotated _ _ _ _ _ im) by done.
    destruct (annotated results color_map idx im) as [im'|e]; simpl.
    + rewrite IH by (simpl in *; lia). simpl.
      by rewrite persist_app.
    + by rewrite persist_nil.
Qed.

Lemma run_frames_length results color_map frames idx :
  (length (run_frames results color_map frames idx).1 ≤ length frames)%nat.
Proof.
  revert idx. induction frames as [|im frames IH]; intros idx; simpl; [done|].
  destruct (annotated results color_map idx im); simpl; [|lia].
  specialize (IH (idx + 1)). lia.
Qed.

(** A frame reached without an exception is written at its own
    position. *)
Lemma run_frames_lookup results color_map frames idx (k : nat) im im' :
  (∀ (j : nat) f, (j < k)%nat → frames !! j = Some f →
     ∃ f', annotated results color_map (idx + Z.of_nat j) f = Ok f') →
  frames !! k = Some im →
  annotated results color_map (idx + Z.of_nat k) im = Ok im' →
  (run_frames results color_map frames idx).1 !! k = Some im'.
Proof.
  revert idx k. induction frames as [|f0 frames IH]; intros idx k Hbefore Hk Him;
    [done|].
  destruct k as [|k]; simpl in *.
  - injection Hk as ->. rewrite Z.add_0_r in Him. by rewrite Him.
  - destruct (Hbefore 0%nat f0) as [f0' Hf0]; [lia|done|].
    rewrite Z.add_0_r in Hf0. rewrite Hf0. simpl.
    apply IH; [|done|].
    + intros j f Hj Hf. destruct (Hbefore (S j) f) as [f' Hf']; [lia|done|].
      exists f'. rewrite <- Hf'. f_equal. lia.
    + rewrite <- Him. f_equal. lia.
Qed.

(** No exception at any frame: every frame is written. *)
Lemma run_frames_ok results color_map frames idx :
  (∀ (j : nat) f, frames !! j = Some f →
     ∃ f', annotated results color_map (idx + Z.of_nat j) f = Ok f') →
  (run_frames results color_map frames idx).2 = Ok ()
  ∧ length (run_frames results color_map frames idx).1 = length frames.
Proof.
  revert idx. induction frames as [|f0 frames IH]; intros idx Hall; simpl;
    [done|].
  destruct (Hall 0%nat f0) as [f0' Hf0]; [done|].
  rewrite Z.add_0_r in Hf0. rewrite Hf0. simpl.
  destruct (IH (idx + 1)) as [-> ->]; [|done].
  intros j f Hf. destruct (Hall (S j) f) as [f' Hf']; [done|].
  exists f'. rewrite <- Hf'. f_equal. lia.
Qed.

(** A run without an exception has met no exception at any frame. *)
Lemma run_frames_ok_inv results color_map frames idx :
  (run_frames results color_map frames idx).2 = Ok () →
  ∀ (j : nat) f, frames !! j = Some f →
    ∃ f', annotated results color_map (idx + Z.of_nat j) f = Ok f'.
Proof.
  revert idx. induction frames as [|f0 frames IH]; intros idx Hok j f Hf;
    [done|].
  simpl in Hok.
  destruct (annotated results color_map idx f0) as [f0'|e] eqn:Hf0; [|done].
  destruct j as [|j]; simpl in Hf.
  - injection Hf as <-. exists f0'. by rewrite Z.add_0_r.
  - destruct (IH (idx + 1) Hok j f Hf) as [f' Hf']. exists f'.
    rewrite <- Hf'. f_equal. lia.
Qed.

(** The first exception stops the loop: the frames before it are
    written, the others are not. *)
Lemma run_frames_fail results color_map frames idx (k : nat) im e :
  (∀ (j : nat) f, (j < k)%nat → frames !! j = Some f →
     ∃ f', annotated results color_map (idx + Z.of_nat j) f = Ok f') →
  frames !! k = Some im →
  annotated results color_map (idx + Z.of_nat k) im = Raise e →
  (run_frames results color_map frames idx).2 = Raise e
  ∧ length (run_frames results color_map frames idx).1 = k.
Proof.
  revert idx k. induction frames as [|f0 frames IH]; intros idx k Hbefore Hk Him;
    [done|].
  destruct k as [|k]; simpl in *.
  - injection Hk as ->. rewrite Z.add_0_r in Him. by rewrite Him.
  - destruct (Hbefore 0%nat f0) as [f0' Hf0]; [lia|done|].
    rewrite Z.add_0_r in Hf0. rewrite Hf0. simpl.
    destruct (IH (idx + 1) k) as [-> ->]; [| |by rewrite <- Him; f_equal; lia|done].
    + intros j f Hj Hf. destruct (Hbefore (S j) f) as [f' Hf']; [lia|done|].
      exists f'. rewrite <- Hf'. f_equal. lia.
    + done.
Qed.

Lemma run_frames_written results color_map (frames : list image) (idx : Z)
    (i : nat) im' :
  (run_frames results color_map frames idx).1 !! i = Some im' →
  ∃ im, frames !! i = Some im
    ∧ annotated results color_map (idx + Z.of_nat i) im = Ok im'.
Proof.
  revert idx i. induction frames as [|im frames IH]; intros idx i; simpl; [done|].
  destruct (annotated results color_map idx im) as [im1|e] eqn:Han; simpl;
    [|done].
  destruct i as [|i]; simpl.
  - intros [= <-]. exists im. by rewrite Z.add_0_r.
  - intros (im0 & Him0 & Han0)%IH. exists im0. split; [done|].
    rewrite <- Han0. f_equal. lia.
Qed.

Lemma annotated_absent results color_map idx im :
  find idx results = None →
  annotated results color_map idx im = Raise (KeyError idx).
Proof. intros Hf. unfold annotated, OrderedDict.get. by rewrite Hf. Qed.

Lemma annotated_present results color_map idx im cur_tracks :
  find idx results = Some cur_tracks →
  annotated results color_map idx im
  = if bool_decide (0 < length cur_tracks)%nat
    then _draw_boxes im cur_tracks color_map
    else Ok im.
Proof. intros Hf. unfold annotated, OrderedDict.get. by rewrite Hf. Qed.

Lemma annotated_Ok results color_map idx im im' :
  annotated results color_map idx im = Ok im' →
  ∃ cur_tracks, find idx results = Some cur_tracks
    ∧ if bool_decide (0 < length cur_tracks)%nat
      then _draw_boxes im cur_tracks color_map = Ok im'
      else im' = im.
Proof.
  unfold annotated, OrderedDict.get.
  destruct (find idx results) as [cur_tracks|]; simpl; [|done].
  intros Han. exists cur_tracks. split; [done|].
  case_bool_decide; [done|]. by injection Han as <-.
Qed.
End loop_facts.

(** ** The pipeline *)

Lemma py_int_inject_Z (n : Z) : py_int (inject_Z n) = n.
Proof. unfold py_int, inject_Z. cbn [Qnum Qden]. apply Z.quot_1_r. Qed.

Lemma py_int_whole (x : Q) (n : Z) : (x == inject_Z n)%Q → py_int x = n.
Proof.
  unfold Qeq, py_int, inject_Z. cbn [Qnum Qden]. intros Hx.
  rewrite Z.mul_1_r in Hx. rewrite Hx. by apply Z.quot_mul.
Qed.

(** Either every index below [n] is a key, or there is a first one that
    is not. *)
Lemma first_absent {V} (m : gmap Z V) (n : nat) :
  (∀ i : nat, (i < n)%nat → is_Some (m !! Z.of_nat i))
  ∨ (∃ k : nat, (k < n)%nat ∧ m !! Z.of_nat k = None
       ∧ ∀ i : nat, (i < k)%nat → is_Some (m !! Z.of_nat i)).
Proof.
  induction n as [|n [IH|(k & Hk & Hnone & Hbefore)]].
  - left. lia.
  - destruct (m !! Z.of_nat n) as [v|] eqn:Hn.
    + left. intros i Hi. destruct (decide (i = n)) as [->|]; [by eexists|].
      apply IH. lia.
    + right. exists n. split_and!; [lia|done..].
  - right. exists k. split_and!; [lia|done..].
Qed.

Section pipeline_facts.
Context {image : Type} `{!Canvas image} `{!Backend} `{!SetOrder}.
Implicit Types (fs : filesystem image) (file : VideoFile image)
  (results : list (Z * list TrackingBbox))
  (m : gmap Z (list TrackingBbox)) (im : image).

(** The colour map built at lines 60 and 61 has a colour for every box
    of every frame. *)
Lemma color_map_for_covers results idx cur_tracks bb :
  find idx results = Some cur_tracks → bb ∈ cur_tracks →
  is_Some (color_map_for results !! track_id bb).
Proof.
  intros Hf Hbb. unfold color_map_for. apply color_map_is_Some.
  apply list_set_elem, list_elem_of_bind. exists cur_tracks. split.
  - by apply list_elem_of_fmap_2.
  - unfold values. apply list_elem_of_fmap. exists (idx, cur_tracks).
    split; [done|]. by apply find_Some_elem.
Qed.

(** Sorting the items keeps the dictionary's contents. *)
Lemma find_sorted_results m (k : Z) : find k (sorted_results m) = m !! k.
Proof.
  unfold sorted_results.
  pose proof (merge_sort_Permutation key_le (map_to_list m)) as Hp.
  assert (NoDup (merge_sort key_le (map_to_list m)).*1) as Hnd.
  { rewrite Hp. apply NoDup_fst_map_to_list. }
  rewrite of_pairs_id by done.
  destruct (m !! k) as [v|] eqn:Hk.
  - apply elem_find_Some; [done|]. rewrite Hp. by apply elem_of_map_to_list.
  - destruct (find k _) as [v|] eqn:Hf; [|done].
    apply find_Some_elem in Hf. rewrite Hp in Hf.
    apply elem_of_map_to_list in Hf. congruence.
Qed.

Lemma _write_video_readable fs results input_video output_video file :
  fs input_video = Some file →
  _write_video fs results input_video output_video
  = Some
      (cv2.persist
         (cv2.VideoWriter_new output_video
            (VideoWriter_fourcc "M" "P" "4" "V") (py_int (vf_fps file))
            (vf_width file, vf_height file))
         (run_frames results (color_map_for results) (vf_frames file) 0).1,
       (run_frames results (color_map_for results) (vf_frames file) 0).2).
Proof.
  intros Hfile. unfold _write_video. rewrite frame_loop_run by lia.
  unfold cv2.open, cv2.get. rewrite Hfile. cbn [cap_source cap_pending].
  by rewrite !py_int_inject_Z.
Qed.

Lemma _write_video_unreadable fs results input_video output_video :
  fs input_video = None →
  _write_video fs results input_video output_video
  = Some (cv2.VideoWriter_new output_video
            (VideoWriter_fourcc "M" "P" "4" "V")
            (py_int (closed_get CAP_PROP_FPS))
            (py_int (closed_get CAP_PROP_FRAME_WIDTH),
             py_int (closed_get CAP_PROP_FRAME_HEIGHT)),
          Ok ()).
Proof.
  intros Hfile. unfold _write_video. rewrite frame_loop_run by lia.
  unfold cv2.open, cv2.get, cv2.VideoCapture_new. rewrite Hfile.
  cbn [cap_source cap_pending run_frames fst snd]. by rewrite persist_nil.
Qed.

(** A frame whose index is a key, and whose boxes are drawn without an
    exception, passes the loop body without an exception. *)
Lemma annotated_passes m (idx : Z) im cur_tracks :
  m !! idx = Some cur_tracks →
  ((0 < length cur_tracks)%nat →
   ∃ im', _draw_boxes im cur_tracks (color_map_for (sorted_results m))
          = Ok im') →
  ∃ im',
    annotated (sorted_results m) (color_map_for (sorted_results m)) idx im
    = Ok im'
    ∧ if bool_decide (0 < length cur_tracks)%nat
      then _draw_boxes im cur_tracks (color_map_for (sorted_results m)) = Ok im'
      else im' = im.
Proof.
  intros Hm Hdraw. rewrite <- find_sorted_results in Hm.
  rewrite (annotated_present _ _ _ _ _ Hm). case_bool_decide as Hlen.
  - destruct (Hdraw Hlen) as [im' Him']. by exists im'.
  - by exists im.
Qed.

Lemma annotated_before m (frames : list image) (k : nat) :
  (∀ (i : nat) im, (i < k)%nat → frames !! i = Some im →
     ∃ cur_tracks, m !! Z.of_nat i = Some cur_tracks
       ∧ ((0 < length cur_tracks)%nat →
          ∃ im', _draw_boxes im cur_tracks
                   (color_map_for (sorted_results m)) = Ok im')) →
  ∀ (j : nat) f, (j < k)%nat → frames !! j = Some f →
    ∃ f', annotated (sorted_results m) (color_map_for (sorted_results m))
            (0 + Z.of_nat j) f = Ok f'.
Proof.
  intros Hpass j f Hj Hf. destruct (Hpass j f Hj Hf) as (cur_tracks & Hm & Hdraw).
  destruct (annotated_passes m (Z.of_nat j) f cur_tracks Hm Hdraw)
    as (f' & Hf' & _).
  by exists f'.
Qed.
End pipeline_facts.

Section pipeline_claims.
Context {image : Type} `{!Canvas image} `{!Backend} `{!SetOrder}.
Implicit Types (fs : filesystem image) (file : VideoFile image)
  (m : gmap Z (list TrackingBbox)) (im : image).

Lemma plot_results_readable fs m input_video output_video file :
  fs input_video = Some file →
  let out :=
    run_frames (sorted_results m) (color_map_for (sorted_results m))
      (vf_frames file) 0 in
  plot_results fs m input_video output_video
  = Some
      (cv2.persist
         (cv2.VideoWriter_new output_video
            (VideoWriter_fourcc "M" "P" "4" "V") (py_int (vf_fps file))
            (vf_width file, vf_height file))
         out.1,
       _ ←! out.2 ;;
       Ok {| printed := "Output saved to " +:+ output_video +:+ ".";
             returned := output_video |}).
Proof.
  intros Hfile out. unfold plot_results.
  by rewrite (_write_video_readable _ _ _ _ file Hfile).
Qed.

(** C1 (amended).  On a readable input, when the loop reaches a frame
    index that is not a key of [results] (every frame before it had its
    key and was drawn on without an exception), [plot_results] raises
    [KeyError] for that index: the frames before it have been handed to
    the writer, that frame and the later ones have not.  A run never
    completes successfully while a frame index of the source is not a
    key. *)
Theorem plot_results_missing_frame fs m input_video output_video file :
  fs input_video = Some file →
  (∀ k : nat,
     (k < length (vf_frames file))%nat →
     (∀ (i : nat) im, (i < k)%nat → vf_frames file !! i = Some im →
        ∃ cur_tracks, m !! Z.of_nat i = Some cur_tracks
          ∧ ((0 < length cur_tracks)%nat →
             ∃ im', _draw_boxes im cur_tracks
                      (color_map_for (sorted_results m)) = Ok im')) →
     m !! Z.of_nat k = None →
     ∃ w, plot_results fs m input_video output_video
          = Some (w, Raise (KeyError (Z.of_nat k)))
       ∧ length (w_frames w) = if w_opened w then k else 0%nat)
  ∧ ((∃ w r, plot_results fs m input_video output_video = Some (w, Ok r))
     → ∀ i : nat, (i < length (vf_frames file))%nat →
         is_Some (m !! Z.of_nat i)).
Proof.
  intros Hfile. split.
  - intros k Hk Hbefore Hnone.
    destruct (lookup_lt_is_Some_2 (vf_frames file) k Hk) as [im Him].
    rewrite (plot_results_readable _ _ _ _ file Hfile).
    destruct (run_frames_fail (sorted_results m)
                (color_map_for (sorted_results m)) (vf_frames file) 0 k im
                (KeyError (Z.of_nat k))) as [Hr Hlen].
    + by apply annotated_before.
    + done.
    + rewrite Z.add_0_l. apply annotated_absent.
      by rewrite find_sorted_results.
    + eexists. split; [by rewrite Hr|].
      rewrite persist_opened, persist_frames. simpl.
      by destruct (writer_opens _ _ _ _).
  - intros (w & r & Hok) i Hi.
    rewrite (plot_results_readable _ _ _ _ file Hfile) in Hok.
    destruct (run_frames _ _ _ _).2 as [[]|e] eqn:Hr; [|done].
    destruct (lookup_lt_is_Some_2 (vf_frames file) i Hi) as [im Him].
    destruct (run_frames_ok_inv _ _ _ _ Hr i im Him) as [im' Han].
    apply annotated_Ok in Han as (cur_tracks & Hf & _).
    rewrite Z.add_0_l, find_sorted_results in Hf. by eexists.
Qed.

(** C2 (amended).  On an unreadable input path [plot_results] raises
    nothing: no frame is processed or written, and the call prints its
    message and returns the output path. *)
Theorem plot_results_unreadable fs m input_video output_video :
  fs input_video = None →
  ∃ w, plot_results fs m input_video output_video
       = Some (w,
               Ok {| printed := "Output saved to " +:+ output_video +:+ ".";
                     returned := output_video |})
    ∧ w_frames w = [] ∧ w_filename w = output_video.
Proof.
  intros Hfile. unfold plot_results.
  rewrite (_write_video_unreadable _ _ _ _ Hfile). by eexists.
Qed.

(** C5 (amended).  When the loop runs to exhaustion on an [N]-frame
    source (every frame index is a key of [results] and the boxes of
    every frame are drawn without an exception), the run completes, the
    writer having been created with the width and height of the source
    and with the source's frame rate truncated to an integer, which is
    the source's rate when that is a whole number.  When that writer
    opened, the output holds exactly [N] frames, the [i]-th of them made
    from the [i]-th source frame (drawn on when its box list is not
    empty, the frame itself otherwise); when it did not, nothing is
    written. *)
Theorem plot_results_frames fs m input_video output_video file :
  fs input_video = Some file →
  (∀ (i : nat) im, vf_frames file !! i = Some im →
     ∃ cur_tracks, m !! Z.of_nat i = Some cur_tracks
       ∧ ((0 < length cur_tracks)%nat →
          ∃ im', _draw_boxes im cur_tracks
                   (color_map_for (sorted_results m)) = Ok im')) →
  ∃ w,
    plot_results fs m input_video output_video
    = Some (w,
            Ok {| printed := "Output saved to " +:+ output_video +:+ ".";
                  returned := output_video |})
    ∧ w_filename w = output_video
    ∧ w_frameSize w = (vf_width file, vf_height file)
    ∧ w_fps w = py_int (vf_fps file)
    ∧ (∀ n : Z, (vf_fps file == inject_Z n)%Q → w_fps w = n)
    ∧ w_opened w
      = writer_opens output_video (VideoWriter_fourcc "M" "P" "4" "V")
          (py_int (vf_fps file)) (vf_width file, vf_height file)
    ∧ (w_opened w = false → w_frames w = [])
    ∧ (w_opened w = true →
       length (w_frames w) = length (vf_frames file)
       ∧ ∀ (i : nat) im, vf_frames file !! i = Some im →
           ∃ cur_tracks im',
             m !! Z.of_nat i = Some cur_tracks
             ∧ w_frames w !! i = Some im'
             ∧ if bool_decide (0 < length cur_tracks)%nat
               then _draw_boxes im cur_tracks
                      (color_map_for (sorted_results m)) = Ok im'
               else im' = im).
Proof.
  intros Hfile Hall. rewrite (plot_results_readable _ _ _ _ file Hfile).
  assert (∀ (j : nat) f, vf_frames file !! j = Some f →
    ∃ f', annotated (sorted_results m) (color_map_for (sorted_results m))
            (0 + Z.of_nat j) f = Ok f') as Hok.
  { intros j f Hf.
    eapply (annotated_before m (vf_frames file) (S j)); [|lia|done].
    intros i im _ Him. by apply Hall. }
  destruct (run_frames_ok _ _ _ _ Hok) as [Hr Hlen].
  eexists. split; [by rewrite Hr|].
  unfold cv2.persist, cv2.VideoWriter_new. simpl.
  destruct (writer_opens _ _ _ _) eqn:Hop; simpl; split_and!; try done;
    try (intros n Hn; by apply py_int_whole).
  intros _. split; [done|].
  intros i im Him. destruct (Hall i im Him) as (cur_tracks & Hm & Hdraw).
  destruct (annotated_passes m (Z.of_nat i) im cur_tracks Hm Hdraw)
    as (im' & Him' & Hshape).
  exists cur_tracks, im'. split_and!; [done| |done].
  eapply run_frames_lookup; [|done|by rewrite Z.add_0_l].
  intros j f Hj Hf. by apply Hok.
Qed.

(** C8.  [_draw_boxes] with an empty box list returns the frame as it
    is; the loop body, at a frame whose box list is empty, hands the
    writer the frame it retrieved, without a drawing call; and a frame
    with an empty box list that a run has written stands in the output as
    it came from the source. *)
Theorem empty_box_list_passes :
  (∀ (im0 : image) color_map, _draw_boxes im0 [] color_map = Ok im0)
  ∧ (∀ m (idx : Z) color_map video writer im,
       m !! idx = Some [] → cv2.retrieve video = Some im →
       frame_body (sorted_results m) color_map video writer idx
       = Ok (cv2.persist writer [im]))
  ∧ (∀ fs m input_video output_video file w r (k : nat) im im',
       fs input_video = Some file →
       plot_results fs m input_video output_video = Some (w, r) →
       vf_frames file !! k = Some im →
       m !! Z.of_nat k = Some [] →
       w_frames w !! k = Some im' →
       im' = im).
Proof.
  split_and!.
  - done.
  - intros m idx color_map video writer im Hm Him.
    rewrite (frame_body_annotated _ _ _ _ _ im) by done.
    rewrite <- find_sorted_results in Hm.
    by rewrite (annotated_present _ _ _ _ _ Hm).
  - intros fs m input_video output_video file w r k im im' Hfile Hrun Hk Hm Hw.
    rewrite (plot_results_readable _ _ _ _ file Hfile) in Hrun.
    injection Hrun as <- _. rewrite persist_frames in Hw. simpl in Hw.
    destruct (writer_opens _ _ _ _); [|done]. simpl in Hw.
    apply run_frames_written in Hw as (im0 & Him0 & Han).
    rewrite Hk in Him0. injection Him0 as <-.
    rewrite <- find_sorted_results in Hm.
    rewrite Z.add_0_l, (annotated_present _ _ _ _ _ Hm) in Han. simpl in Han.
    by injection Han as <-.
Qed.
End pipeline_claims.

(** ** The pipeline on concrete clips *)

Lemma plot_results_missing_frame_witness :
  ∃ w, plot_results (only_file (clip 30 3)) frame_1_missing "in.mp4" "out.mp4"
       = Some (w, Raise (KeyError 1))
    ∧ length (w_frames w) = if w_opened w then 1%nat else 0%nat.
Proof.
  destruct (plot_results_missing_frame (only_file (clip 30 3)) frame_1_missing
              "in.mp4" "out.mp4" (clip 30 3)) as [H _]; [reflexivity|].
  apply (H 1%nat).
  - vm_compute. lia.
  - intros i im Hi Him. assert (i = 0%nat) as -> by lia.
    vm_compute in Him. injection Him as <-.
    eexists. split; [reflexivity|]. intros _. eexists. reflexivity.
  - reflexivity.
Defined.

(** C1 as stated fails: frame index 1 is reached and is absent from the
    results, and the run ends in [KeyError 1] with one frame written, not
    in success. *)
Lemma missing_frame_raises :
  frame_1_missing !! 1 = None
  ∧ (∃ w, plot_results (only_file (clip 30 3)) frame_1_missing
            "in.mp4" "out.mp4"
          = Some (w, Raise (KeyError 1))
       ∧ length (w_frames w) = 1%nat)
  ∧ ¬ ∃ w r, plot_results (only_file (clip 30 3)) frame_1_missing
               "in.mp4" "out.mp4"
             = Some (w, Ok r).
Proof.
  split_and!.
  - reflexivity.
  - eexists. split; vm_compute; reflexivity.
  - intros (w & r & H). vm_compute in H. discriminate.
Qed.

Lemma plot_results_unreadable_witness :
  ∃ w, plot_results (only_file (clip 30 3)) two_frames "missing.mp4" "out.mp4"
       = Some (w, Ok {| printed := "Output saved to out.mp4.";
                        returned := "out.mp4" |})
    ∧ w_frames w = [] ∧ w_filename w = "out.mp4".
Proof.
  apply (plot_results_unreadable (only_file (clip 30 3)) two_frames
           "missing.mp4" "out.mp4").
  reflexivity.
Defined.

(** C2 as stated fails: the input path is unreadable, and the run does
    not end in an exception but reports success. *)
Lemma unreadable_input_succeeds :
  only_file (clip 30 3) "missing.mp4" = None
  ∧ (∃ w r, plot_results (only_file (clip 30 3)) two_frames
              "missing.mp4" "out.mp4"
            = Some (w, Ok r)
       ∧ returned r = "out.mp4")
  ∧ ¬ ∃ w e, plot_results (only_file (clip 30 3)) two_frames
               "missing.mp4" "out.mp4"
             = Some (w, Raise e).
Proof.
  split_and!.
  - reflexivity.
  - eexists _, _. split; vm_compute; reflexivity.
  - intros (w & e & H). vm_compute in H. discriminate.
Qed.

Lemma plot_results_frames_witness :
  ∃ w, plot_results (only_file (clip 30 2)) two_frames "in.mp4" "out.mp4"
       = Some (w, Ok {| printed := "Output saved to out.mp4.";
                        returned := "out.mp4" |})
    ∧ length (w_frames w) = 2%nat
    ∧ w_frameSize w = (640, 480)
    ∧ w_fps w = 30.
Proof.
  destruct (plot_results_frames (only_file (clip 30 2)) two_frames
              "in.mp4" "out.mp4" (clip 30 2))
    as (w & Hrun & _ & Hsize & _ & Hfps & Hopened & _ & Hframes);
    [reflexivity| |].
  - intros i im Him. destruct i as [|[|i]]; vm_compute in Him; simplify_eq.
    + eexists. split; [reflexivity|]. intros _. eexists. reflexivity.
    + eexists. split; [reflexivity|]. simpl. lia.
  - exists w. split_and!; [exact Hrun| |exact Hsize|].
    + apply Hframes. rewrite Hopened. reflexivity.
    + apply Hfps. reflexivity.
Defined.

(** C5 as stated fails on the frame rate: a two-frame source at
    30000/1001 frames per second, with both frame indices present, is
    written in full at 29 frames per second. *)
Lemma frame_rate_truncated :
  ∃ w r, plot_results (only_file (clip (30000 # 1001) 2)) two_frames
           "in.mp4" "out.mp4"
         = Some (w, Ok r)
    ∧ length (w_frames w) = 2%nat
    ∧ w_fps w = 29
    ∧ ¬ (inject_Z (w_fps w) == vf_fps (clip (30000 # 1001) 2))%Q.
Proof.
  eexists _, _. split_and!; [vm_compute; reflexivity..|].
  vm_compute. discriminate.
Qed.

Lemma empty_box_list_passes_witness :
  match plot_results (only_file (clip 30 2)) two_frames "in.mp4" "out.mp4" with
  | Some (w, _) =>
      match w_frames w !! 1%nat with
      | Some im' => im' = (1, [])
      | None => False
      end
  | None => False
  end.
Proof.
  destruct (plot_results (only_file (clip 30 2)) two_frames "in.mp4" "out.mp4")
    as [[w r]|] eqn:Hrun; [|vm_compute in Hrun; discriminate].
  destruct (w_frames w !! 1%nat) as [im'|] eqn:Hw.
  - destruct (empty_box_list_passes (image := traced)) as (_ & _ & Hwritten).
    apply (Hwritten (only_file (clip 30 2)) two_frames "in.mp4" "out.mp4"
             (clip 30 2) w r 1%nat (1, []) im');
      [reflexivity|exact Hrun|reflexivity|reflexivity|exact Hw].
  - vm_compute in Hrun. injection Hrun as <- _. vm_compute in Hw. discriminate.
Defined.

(** With every frame index present, a box whose coordinate is beyond 32
    bits stops the run at its frame with the exception of the drawing
    call. *)
Example unfit_box_stops_run :
  ∃ w, plot_results (only_file (clip 30 3)) frame_1_unfit "in.mp4" "out.mp4"
       = Some (w, Raise Cv2Error)
    ∧ length (w_frames w) = 1%nat.
Proof. eexists. split; vm_compute; reflexivity. Qed.

(** At a frame rate below one frame per second the rate passed to the
    writer is 0; a writer that does not open for it keeps no frame, and
    the run reports success all the same. *)
Example closed_writer_keeps_nothing :
  ∃ w r, plot_results (only_file (clip (1 # 2) 2)) two_frames
           "in.mp4" "out.mp4"
         = Some (w, Ok r)
    ∧ w_fps w = 0 ∧ w_opened w = false ∧ w_frames w = [].
Proof. eexists _, _. split_and!; vm_compute; reflexivity. Qed.

(** * Further properties of the code *)

(** ** The colour formula *)

Lemma color_pairs_snoc (l : list Z) (x : Z) :
  color_pairs (l ++ [x])
  = color_pairs l ++ [(x, color_at (Z.of_nat (length l)))].
Proof.
  unfold color_pairs. rewrite length_app. simpl.
  rewrite Nat.add_1_r, seqZ_S, fmap_app, Z.add_0_l. simpl.
  rewrite zip_with_app; [done|]. rewrite length_fmap, length_seqZ. lia.
Qed.

Lemma color_map_snoc (l : list Z) (x : Z) :
  _compute_color_for_all_labels (l ++ [x])
  = <[x := color_at (Z.of_nat (length l))]> (_compute_color_for_all_labels l).
Proof.
  unfold _compute_color_for_all_labels. fold (color_pairs (l ++ [x])).
  fold (color_pairs l). by rewrite color_pairs_snoc, dict_of_pairs_snoc.
Qed.

(** X1.  Line 135 on a list that repeats an identifier: the identifier
    ends with the colour of the last position at which it stands. *)
Theorem color_of_last_position (id_list : list Z) (i : nat) (id : Z) :
  id_list !! i = Some id →
  (∀ j : nat, (i < j)%nat → id_list !! j ≠ Some id) →
  _compute_color_for_all_labels id_list !! id = Some (color_at (Z.of_nat i)).
Proof.
  revert i. induction id_list as [|x l IH] using rev_ind; intros i Hi Hlast;
    [done|].
  rewrite color_map_snoc.
  apply lookup_snoc_Some in Hi as [[Hlt Hi]|[-> ->]].
  - rewrite lookup_insert_ne.
    + apply IH; [done|]. intros j Hj Hl. apply (Hlast j Hj).
      by apply lookup_app_l_Some.
    + intros ->. apply (Hlast (length l)); [done|].
      by rewrite lookup_app_r, Nat.sub_diag by lia.
  - by rewrite lookup_insert_eq.
Qed.

Lemma color_of_last_position_witness :
  _compute_color_for_all_labels [1; 2; 3; 4; 1] !! 1 = Some (color_at 4).
Proof.
  apply (color_of_last_position [1; 2; 3; 4; 1] 4 1); [reflexivity|].
  intros j Hj Hl. apply lookup_lt_Some in Hl. simpl in Hl. lia.
Defined.

Lemma color_at_period (i : Z) : color_at (i + 255) = color_at i.
Proof.
  assert (∀ p : Z,
    (p * ((i + 255 + 1) ^ 5 - (i + 255) + 1)) `mod` 255
    = (p * ((i + 1) ^ 5 - i + 1)) `mod` 255) as Hch.
  { intros p.
    replace (p * ((i + 255 + 1) ^ 5 - (i + 255) + 1))
      with (p * ((i + 1) ^ 5 - i + 1)
            + p * (5 * (i + 1) ^ 4 + 10 * (i + 1) ^ 3 * 255
                   + 10 * (i + 1) ^ 2 * 255 ^ 2 + 5 * (i + 1) * 255 ^ 3
                   + 255 ^ 4 - 1) * 255) by ring.
    apply Z_mod_plus_full. }
  unfold color_at, palette. by rewrite !Hch.
Qed.

(** X2.  The colour of a position repeats with period 255: in a list of
    distinct identifiers, the identifiers at positions [i] and [i + 255]
    are different and get the same colour. *)
Theorem colors_repeat_after_255 (id_list : list Z) (i : nat) (a b : Z) :
  NoDup id_list →
  id_list !! i = Some a → id_list !! (i + 255)%nat = Some b →
  a ≠ b
  ∧ _compute_color_for_all_labels id_list !! a
    = _compute_color_for_all_labels id_list !! b.
Proof.
  intros Hnd Ha Hb. split.
  - intros ->. pose proof (NoDup_lookup _ _ _ _ Hnd Ha Hb). lia.
  - rewrite (color_map_lookup _ _ _ Hnd Ha), (color_map_lookup _ _ _ Hnd Hb).
    by rewrite Nat2Z.inj_add, color_at_period.
Qed.

Lemma colors_repeat_after_255_witness :
  1 ≠ 256
  ∧ _compute_color_for_all_labels (seqZ 0 300) !! 1
    = _compute_color_for_all_labels (seqZ 0 300) !! 256.
Proof.
  apply (colors_repeat_after_255 (seqZ 0 300) 1 1 256).
  - apply NoDup_seqZ.
  - reflexivity.
  - reflexivity.
Defined.

(** X3.  The third channel of every colour in the mapping is a multiple
    of 15, so it takes at most 17 values. *)
Theorem blue_channel_multiple_of_15 (id_list : list Z) (id r g b : Z) :
  _compute_color_for_all_labels id_list !! id = Some (r, g, b) →
  ∃ q, 0 ≤ q < 17 ∧ b = 15 * q.
Proof.
  intros Hc. apply dict_of_pairs_lookup_Some in Hc.
  apply color_pairs_elem in Hc as (i & _ & Hc).
  unfold color_at, palette in Hc. injection Hc as _ _ ->.
  set (f := (Z.of_nat i + 1) ^ 5 - Z.of_nat i + 1).
  exists ((69905 * f) `mod` 17). split.
  - apply Z.mod_pos_bound. lia.
  - replace ((2 ^ 20 - 1) * f) with (15 * (69905 * f)) by (subst f; ring).
    change 255 with (15 * 17). by rewrite Z.mul_mod_distr_l.
Qed.

Lemma blue_channel_multiple_of_15_witness : ∃ q, 0 ≤ q < 17 ∧ 225 = 15 * q.
Proof.
  apply (blue_channel_multiple_of_15 [5; 9] 9 224 239 225). reflexivity.
Defined.

(** ** The drawing loop *)

Lemma elem_of_first_seen (l : list Z) (x : Z) : x ∈ first_seen l ↔ x ∈ l.
Proof.
  induction l as [|y l IH]; simpl; [done|].
  rewrite !elem_of_cons, list_elem_of_filter, IH.
  destruct (decide (x = y)); tauto.
Qed.

Lemma first_seen_snoc (l : list Z) (k : Z) :
  first_seen (l ++ [k])
  = if decide (k ∈ l) then first_seen l else first_seen l ++ [k].
Proof.
  induction l as [|x l IH]; [done|].
  cbn [app first_seen]. rewrite IH.
  destruct (decide (k ∈ l)) as [Hin|Hin].
  - rewrite decide_True; [done|]. by right.
  - rewrite filter_app. destruct (decide (k = x)) as [->|Hne].
    + rewrite decide_True by left.
      rewrite filter_cons_False by (intros H; by apply H).
      by rewrite filter_nil, app_nil_r.
    + rewrite decide_False by (rewrite elem_of_cons; by intros [?|?]).
      by rewrite filter_cons_True, filter_nil by done.
Qed.

Lemma of_pairs_keys {V} (l : list (Z * V)) :
  (of_pairs l).*1 = first_seen l.*1.
Proof.
  induction l as [|[k v] l IH] using rev_ind; [done|].
  rewrite of_pairs_snoc, fmap_app. change ([(k, v)].*1) with [k].
  rewrite first_seen_snoc.
  destruct (decide (k ∈ l.*1)) as [Hin|Hin].
  - rewrite set_keys_present; [done|]. by rewrite IH, elem_of_first_seen.
  - rewrite set_fresh, fmap_app; [by rewrite IH|].
    by rewrite IH, elem_of_first_seen.
Qed.

Section draw_more.
Context {image : Type} `{!Canvas image}.
Implicit Types (im : image) (color_map : gmap Z color)
  (cur_tracks : list TrackingBbox).

Lemma py_round_raise (x : pyfloat) (e : exn) :
  py_round x = Raise e → e = ValueError ∨ e = OverflowError.
Proof. destruct x; simpl; intros [= <-]; auto. Qed.

(** A turn that returns has found a colour; a turn that raises
    [KeyError] has looked for one in vain. *)
Lemma draw_track_outcome color_map im tid bb :
  match draw_track color_map im tid bb with
  | Ok _ => is_Some (color_map !! tid)
  | Raise (KeyError k) => k = tid ∧ color_map !! tid = None
  | Raise _ => True
  end.
Proof.
  unfold draw_track, dict_get.
  destruct (py_round (bb_left bb)) as [l|e] eqn:Hl; simpl;
    [|by apply py_round_raise in Hl as [-> | ->]].
  destruct (py_round (bb_top bb)) as [t|e] eqn:Ht; simpl;
    [|by apply py_round_raise in Ht as [-> | ->]].
  destruct (py_round (bb_right bb)) as [r|e] eqn:Hr; simpl;
    [|by apply py_round_raise in Hr as [-> | ->]].
  destruct (py_round (bb_bottom bb)) as [b|e] eqn:Hb; simpl;
    [|by apply py_round_raise in Hb as [-> | ->]].
  destruct (color_map !! tid) as [c|] eqn:Hc; simpl; [|done].
  destruct (rectangle _ _ _ _ _) as [im1|]; simpl; [|done].
  destruct (putText _ _ _ _ _ _ _); simpl; [by eexists|done].
Qed.

Lemma draw_tracks_outcome color_map im (its : list (Z * TrackingBbox)) :
  match draw_tracks color_map im its with
  | Ok _ => ∀ tid bb, (tid, bb) ∈ its → is_Some (color_map !! tid)
  | Raise (KeyError k) => ∃ bb, (k, bb) ∈ its ∧ color_map !! k = None
  | Raise _ => True
  end.
Proof.
  revert im. induction its as [|[tid bb] its IH]; intros im; simpl.
  - intros tid bb Hin. by apply elem_of_nil in Hin.
  - pose proof (draw_track_outcome color_map im tid bb) as Hturn.
    destruct (draw_track color_map im tid bb) as [im1|e]; simpl.
    + specialize (IH im1).
      destruct (draw_tracks color_map im1 its) as [im2|[k| | |]]; try done.
      * intros tid' bb' [[= -> ->]|Hin]%elem_of_cons; [done|by eapply IH].
      * destruct IH as (bb' & Hin & Hnone). exists bb'. split; [by right|done].
    + destruct e as [k| | |]; try done. destruct Hturn as [-> Hnone].
      exists bb. split; [left|done].
Qed.

Lemma tracks_elem cur_tracks tid bb :
  (tid, bb) ∈ items (of_pairs (zip (track_id <$> cur_tracks) cur_tracks))
  ↔ last_box tid cur_tracks = Some bb.
Proof.
  rewrite <- find_tracks. unfold items. split.
  - apply elem_find_Some, of_pairs_NoDup.
  - apply find_Some_elem.
Qed.

Lemma _draw_boxes_outcome im cur_tracks color_map :
  match _draw_boxes im cur_tracks color_map with
  | Ok _ => ∀ bb, bb ∈ cur_tracks → is_Some (color_map !! track_id bb)
  | Raise (KeyError k) =>
      ∃ bb, bb ∈ cur_tracks ∧ track_id bb = k ∧ color_map !! k = None
  | Raise _ => True
  end.
Proof.
  unfold _draw_boxes.
  pose proof (draw_tracks_outcome color_map im
    (items (of_pairs (zip (track_id <$> cur_tracks) cur_tracks)))) as Hout.
  destruct (draw_tracks _ _ _) as [im'|[k| | |]]; try done.
  - intros bb Hbb.
    destruct (last_box_is_Some (track_id bb) cur_tracks bb Hbb eq_refl)
      as [bb' Hlast].
    apply (Hout (track_id bb) bb'). by apply tracks_elem.
  - destruct Hout as (bb & Hin & Hnone).
    apply tracks_elem, last_box_position in Hin as (j & Hj & Hid & _).
    exists bb. split_and!; [by eapply list_elem_of_lookup_2|done..].
Qed.

(** X4.  [_draw_boxes] can return the frame only when [color_map] has an
    entry for the identifier of every box of the frame, and a [KeyError]
    that it raises names the identifier of a box of the frame that
    [color_map] lacks. *)
Theorem draw_boxes_outcome im cur_tracks color_map :
  match _draw_boxes im cur_tracks color_map with
  | Ok _ => ∀ bb, bb ∈ cur_tracks → is_Some (color_map !! track_id bb)
  | Raise (KeyError k) =>
      ∃ bb, bb ∈ cur_tracks ∧ track_id bb = k ∧ color_map !! k = None
  | Raise _ => True
  end.
Proof. apply _draw_boxes_outcome. Qed.

(** X5.  The loop of [_draw_boxes] has one turn for each identifier of
    the frame, in the order in which the identifiers are first met, and
    the box of a turn is the last box of the frame with that
    identifier. *)
Theorem draw_boxes_turns im cur_tracks color_map :
  let tracks := of_pairs (zip (track_id <$> cur_tracks) cur_tracks) in
  _draw_boxes im cur_tracks color_map = draw_tracks color_map im (items tracks)
  ∧ (items tracks).*1 = first_seen (track_id <$> cur_tracks)
  ∧ NoDup (items tracks).*1
  ∧ (∀ tid bb, (tid, bb) ∈ items tracks ↔ last_box tid cur_tracks = Some bb).
Proof.
  intros tracks. split_and!; [done| |apply of_pairs_NoDup|apply tracks_elem].
  unfold items, tracks. rewrite of_pairs_keys. f_equal.
  apply fst_zip. by rewrite length_fmap.
Qed.
End draw_more.

(** A frame in which the identifiers 1, 2, 1, 3, 2 are met in this
    order is drawn in the order 1, 2, 3. *)
Example draw_boxes_turns_order :
  (items (of_pairs (zip (track_id <$> [box 1 0 0 1 1; box 2 0 0 1 1;
                                      box 1 5 5 6 6; box 3 0 0 1 1;
                                      box 2 7 7 8 8])
                     [box 1 0 0 1 1; box 2 0 0 1 1; box 1 5 5 6 6;
                      box 3 0 0 1 1; box 2 7 7 8 8]))).*1
  = [1; 2; 3].
Proof. reflexivity. Qed.

(** ** The pipeline *)

#[local] Instance key_le_total : Total key_le.
Proof. intros a b. unfold key_le. lia. Qed.

#[local] Instance key_le_trans : Transitive key_le.
Proof. intros a b c. unfold key_le. lia. Qed.

Lemma sorted_results_items (m : gmap Z (list TrackingBbox)) :
  sorted_results m = merge_sort key_le (map_to_list m).
Proof.
  unfold sorted_results. apply of_pairs_id.
  rewrite (merge_sort_Permutation key_le). apply NoDup_fst_map_to_list.
Qed.

(** A list sorted by key whose keys are distinct is strictly sorted. *)
Lemma sorted_distinct_keys {V} (l : list (Z * V)) :
  StronglySorted (λ a b, a.1 ≤ b.1) l → NoDup l.*1 →
  StronglySorted (λ a b, a.1 < b.1) l.
Proof.
  induction 1 as [|a l Hl IH Ha]; intros Hnd; [constructor|].
  simpl in Hnd. apply NoDup_cons in Hnd as [Hnotin Hnd].
  constructor; [by apply IH|].
  apply Forall_forall. intros b Hb.
  pose proof (proj1 (Forall_forall _ _) Ha b Hb) as Hle. simpl in Hle.
  destruct (decide (a.1 = b.1)) as [Heq|]; [|simpl; lia].
  exfalso. apply Hnotin. rewrite Heq. by apply list_elem_of_fmap_2.
Qed.

(** X6.  Line 27: the dictionary passed to [_write_video] holds exactly
    the entries of [results], in strictly ascending order of the frame
    index, whatever the order of [results] itself. *)
Theorem sorted_results_ascending (m : gmap Z (list TrackingBbox)) :
  StronglySorted (λ a b, a.1 < b.1) (items (sorted_results m))
  ∧ (∀ k frame, (k, frame) ∈ items (sorted_results m) ↔ m !! k = Some frame)
  ∧ length (items (sorted_results m)) = size m.
Proof.
  unfold items. rewrite sorted_results_items.
  pose proof (merge_sort_Permutation key_le (map_to_list m)) as Hp.
  split_and!.
  - apply sorted_distinct_keys.
    + apply (StronglySorted_merge_sort key_le).
    + rewrite Hp. apply NoDup_fst_map_to_list.
  - intros k frame. rewrite Hp. apply elem_of_map_to_list.
  - rewrite Hp. by rewrite length_map_to_list.
Qed.

Section pipeline_more.
Context {image : Type} `{!Canvas image} `{!Backend} `{!SetOrder}.
Implicit Types (fs : filesystem image) (file : VideoFile image)
  (results : list (Z * list TrackingBbox)) (im : image).

(** X7.  Lines 60 and 61: the colour map of a run has an entry for a
    track identifier exactly when some box of some frame of [results]
    carries it, and it has as many entries as there are such
    identifiers. *)
Theorem color_map_for_domain results :
  (∀ tid,
     is_Some (color_map_for results !! tid)
     ↔ ∃ frame bb, frame ∈ values results ∧ bb ∈ frame ∧ track_id bb = tid)
  ∧ size (color_map_for results)
    = size (list_to_set (C := gset Z)
              (frame ← values results; track_id <$> frame)).
Proof.
  unfold color_map_for. split.
  - intros tid. rewrite <- elem_of_dom, color_map_dom, elem_of_list_to_set.
    rewrite list_set_elem, list_elem_of_bind. split.
    + intros (frame & Htid & Hframe).
      apply list_elem_of_fmap in Htid as (bb & -> & Hbb). by exists frame, bb.
    + intros (frame & bb & Hframe & Hbb & <-). exists frame.
      split; [by apply list_elem_of_fmap_2|done].
  - rewrite <- size_dom, color_map_dom. f_equal. apply set_eq. intros tid.
    by rewrite !elem_of_list_to_set, list_set_elem.
Qed.

(** With the colour map of the run, a [KeyError] in a turn of the loop
    is for the frame index. *)
Lemma annotated_KeyError results (idx : Z) im (k : Z) :
  annotated results (color_map_for results) idx im = Raise (KeyError k) →
  k = idx ∧ find idx results = None.
Proof.
  unfold annotated, OrderedDict.get.
  destruct (find idx results) as [cur_tracks|] eqn:Hf; simpl;
    [|by intros [= <-]].
  case_bool_decide; [|done]. intros Hdraw. exfalso.
  pose proof (_draw_boxes_outcome im cur_tracks (color_map_for results)) as Hout.
  rewrite Hdraw in Hout. destruct Hout as (bb & Hbb & <- & Hnone).
  destruct (color_map_for_covers results idx cur_tracks bb Hf Hbb) as [c Hc].
  congruence.
Qed.

Lemma run_frames_KeyError results (frames : list image) (idx k : Z) :
  (run_frames results (color_map_for results) frames idx).2
  = Raise (KeyError k) →
  ∃ j : nat, (j < length frames)%nat ∧ k = idx + Z.of_nat j
    ∧ find k results = None
    ∧ (∀ i : nat, (i < j)%nat → is_Some (find (idx + Z.of_nat i) results))
    ∧ length (run_frames results (color_map_for results) frames idx).1 = j.
Proof.
  revert idx. induction frames as [|im frames IH]; intros idx; simpl; [done|].
  destruct (annotated results (color_map_for results) idx im) as [im'|e] eqn:Han;
    simpl.
  - intros (j & Hj & -> & Hnone & Hbefore & Hlen)%IH. exists (S j).
    split_and!; [lia|lia|done| |by rewrite Hlen].
    intros [|i] Hi.
    + apply annotated_Ok in Han as (cur_tracks & Hf & _).
      rewrite Z.add_0_r. by eexists.
    + replace (idx + Z.of_nat (S i)) with (idx + 1 + Z.of_nat i) by lia.
      apply Hbefore. lia.
  - intros [= ->]. apply annotated_KeyError in Han as [-> Hnone].
    exists 0%nat. rewrite Z.add_0_r. split_and!; [lia|done|done|lia|done].
Qed.

(** X8.  [_write_video] returns for every input.  On an unreadable input
    it raises nothing and writes nothing.  A [KeyError] that it raises
    names a frame index, the first index of a source frame that is not a
    key of [results], the frames before it having been handed to the
    writer; it is never for a track identifier. *)
Theorem write_video_outcome fs results input_video output_video :
  ∃ w r, _write_video fs results input_video output_video = Some (w, r)
    ∧ (fs input_video = None → r = Ok () ∧ w_frames w = [])
    ∧ (∀ k : Z, r = Raise (KeyError k) →
         ∃ (file : VideoFile image) (j : nat),
           fs input_video = Some file
           ∧ k = Z.of_nat j
           ∧ (j < length (vf_frames file))%nat
           ∧ find k results = None
           ∧ (∀ i : nat, (i < j)%nat → is_Some (find (Z.of_nat i) results))
           ∧ length (w_frames w) = if w_opened w then j else 0%nat).
Proof.
  destruct (fs input_video) as [file|] eqn:Hfile.
  - rewrite (_write_video_readable _ _ _ _ file Hfile). eexists _, _.
    split; [done|]. split; [done|].
    intros k (j & Hj & -> & Hnone & Hbefore & Hlen)%run_frames_KeyError.
    exists file, j. split_and!; [done|lia|done|done| |].
    + intros i Hi. specialize (Hbefore i Hi). by rewrite Z.add_0_l in Hbefore.
    + rewrite persist_opened, persist_frames. simpl.
      by destruct (writer_opens _ _ _ _).
  - rewrite (_write_video_unreadable _ _ _ _ Hfile). eexists _, _.
    split; [done|]. split; [done|]. intros k [=].
Qed.

(** X9.  Whatever the outcome of [_write_video], every frame in the
    writer stands at the position of the source frame it was made from:
    the frame itself when the box list of its index is empty, the frame
    drawn on with the boxes of its index otherwise.  Nothing else is ever
    written. *)
Theorem write_video_frames_from_source fs results input_video output_video
    file w r (i : nat) im' :
  fs input_video = Some file →
  _write_video fs results input_video output_video = Some (w, r) →
  w_frames w !! i = Some im' →
  ∃ im cur_tracks,
    vf_frames file !! i = Some im
    ∧ find (Z.of_nat i) results = Some cur_tracks
    ∧ if bool_decide (0 < length cur_tracks)%nat
      then _draw_boxes im cur_tracks (color_map_for results) = Ok im'
      else im' = im.
Proof.
  intros Hfile Hrun Hi.
  rewrite (_write_video_readable _ _ _ _ file Hfile) in Hrun.
  injection Hrun as <- _. rewrite persist_frames in Hi. simpl in Hi.
  destruct (writer_opens _ _ _ _); [|done]. simpl in Hi.
  apply run_frames_written in Hi as (im & Him & Han). rewrite Z.add_0_l in Han.
  exists im. unfold annotated, OrderedDict.get in Han.
  destruct (find (Z.of_nat i) results) as [cur_tracks|]; [|done].
  exists cur_tracks. split_and!; [done..|]. simpl in Han.
  case_bool_decide; [done|]. by injection Han as <-.
Qed.
End pipeline_more.

Lemma write_video_frames_from_source_witness :
  ∃ im cur_tracks,
    vf_frames (clip 30 3) !! 0%nat = Some im
    ∧ find 0 (sorted_results frame_1_missing) = Some cur_tracks
    ∧ if bool_decide (0 < length cur_tracks)%nat
      then _draw_boxes im cur_tracks
             (color_map_for (sorted_results frame_1_missing))
           = Ok (0, [Rectangle (1, 2) (3, 4) (14, 254, 30) 3;
                     PutText "id_1" (1, -6) 0 1 (14, 254, 30) 3])
      else (0, [Rectangle (1, 2) (3, 4) (14, 254, 30) 3;
                PutText "id_1" (1, -6) 0 1 (14, 254, 30) 3]) = im.
Proof.
  eapply (write_video_frames_from_source (only_file (clip 30 3))
            (sorted_results frame_1_missing) "in.mp4" "out.mp4" (clip 30 3)
            _ _ 0).
  - reflexivity.
  - vm_compute. reflexivity.
  - reflexivity.
Defined.

(** ** The [frame_id] field *)

Section frame_id_unread.
Context {image : Type} `{!Canvas image} `{!Backend} `{!SetOrder}.
Variable h : TrackingBbox → Z.

(** The boxes with their [frame_id] fields overwritten by [h]. *)
Let retag (bb : TrackingBbox) : TrackingBbox := with_frame_id (h bb) bb.
Let retag_item (kv : Z * TrackingBbox) : Z * TrackingBbox := (kv.1, retag kv.2).
Let retag_frame (kv : Z * list TrackingBbox) : Z * list TrackingBbox :=
  (kv.1, retag <$> kv.2).

Lemma set_retag (k : Z) (bb : TrackingBbox) (d : list (Z * TrackingBbox)) :
  OrderedDict.set k (retag bb) (retag_item <$> d)
  = retag_item <$> OrderedDict.set k bb d.
Proof.
  induction d as [|[k' bb'] d IH]; simpl; [done|].
  case_decide; simpl; [done|]. f_equal. exact IH.
Qed.

Lemma of_pairs_retag (l : list (Z * TrackingBbox)) :
  of_pairs (retag_item <$> l) = retag_item <$> of_pairs l.
Proof.
  induction l as [|[k bb] l IH] using rev_ind; [done|].
  rewrite fmap_app. change (retag_item <$> [(k, bb)]) with [(k, retag bb)].
  rewrite !of_pairs_snoc, IH. apply set_retag.
Qed.

Lemma draw_tracks_retag (color_map : gmap Z color) (im : image)
    (its : list (Z * TrackingBbox)) :
  draw_tracks color_map im (retag_item <$> its) = draw_tracks color_map im its.
Proof.
  revert im. induction its as [|[tid bb] its IH]; intros im; simpl; [done|].
  change (draw_track color_map im tid (retag bb))
    with (draw_track color_map im tid bb).
  destruct (draw_track color_map im tid bb); simpl; [apply IH|done].
Qed.

Lemma _draw_boxes_retag (im : image) (cur_tracks : list TrackingBbox)
    (color_map : gmap Z color) :
  _draw_boxes im (retag <$> cur_tracks) color_map
  = _draw_boxes im cur_tracks color_map.
Proof.
  unfold _draw_boxes. rewrite !tracks_pairs, <- list_fmap_compose.
  change ((λ bb, (track_id bb, bb)) ∘ retag)
    with (retag_item ∘ (λ bb, (track_id bb, bb))).
  rewrite list_fmap_compose, of_pairs_retag. unfold items.
  apply draw_tracks_retag.
Qed.

Lemma find_retag (k : Z) (results : list (Z * list TrackingBbox)) :
  find k (retag_frame <$> results)
  = (λ frame : list TrackingBbox, retag <$> frame) <$> find k results.
Proof.
  induction results as [|[k' frame] results IH]; simpl; [done|].
  by case_decide.
Qed.

Lemma color_map_for_retag (results : list (Z * list TrackingBbox)) :
  color_map_for (retag_frame <$> results) = color_map_for results.
Proof.
  unfold color_map_for, values. do 2 f_equal.
  induction results as [|[k frame] results IH]; [done|].
  cbn [fmap list_fmap mbind list_bind snd retag_frame].
  f_equal; [|exact IH].
  rewrite <- list_fmap_compose. by apply list_fmap_ext.
Qed.

Lemma annotated_retag (results : list (Z * list TrackingBbox))
    (color_map : gmap Z color) (idx : Z) (im : image) :
  annotated (retag_frame <$> results) color_map idx im
  = annotated results color_map idx im.
Proof.
  unfold annotated, OrderedDict.get. rewrite find_retag.
  destruct (find idx results) as [cur_tracks|]; simpl; [|done].
  rewrite length_fmap. case_bool_decide; [|done]. apply _draw_boxes_retag.
Qed.

Lemma run_frames_retag (results : list (Z * list TrackingBbox))
    (color_map : gmap Z color) (frames : list image) (idx : Z) :
  run_frames (retag_frame <$> results) color_map frames idx
  = run_frames results color_map frames idx.
Proof.
  revert idx. induction frames as [|im frames IH]; intros idx; simpl; [done|].
  rewrite annotated_retag. destruct (annotated _ _ _ _); [|done].
  by rewrite IH.
Qed.

(** X10.  [_write_video] never reads the [frame_id] field of a box: the
    boxes drawn on a frame are those filed under its index in [results],
    and overwriting every [frame_id] leaves the outcome and the written
    frames as they are. *)
Theorem write_video_ignores_frame_id (fs : filesystem image)
    (results : list (Z * list TrackingBbox))
    (input_video output_video : string) :
  _write_video fs
    ((λ kv : Z * list TrackingBbox,
        (kv.1, (λ bb, with_frame_id (h bb) bb) <$> kv.2)) <$> results)
    input_video output_video
  = _write_video fs results input_video output_video.
Proof.
  change (λ kv : Z * list TrackingBbox,
            (kv.1, (λ bb, with_frame_id (h bb) bb) <$> kv.2))
    with retag_frame.
  destruct (fs input_video) as [file|] eqn:Hfile.
  - rewrite !(_write_video_readable _ _ _ _ file Hfile).
    by rewrite color_map_for_retag, run_frames_retag.
  - by rewrite !(_write_video_unreadable _ _ _ _ Hfile).
Qed.
End frame_id_unread.
